(** * IsingModel: a shallow embedding of the Monte Carlo Ising simulator

    The development follows [IsingModel.py] (the lattice, the Metropolis
    rule, the Glauber and Kawasaki moves, the bootstrap estimators) and
    the batch driver [IsingPlotter.py].

    Conventions.
    - Python integers and numpy integer spins are [Z].
    - Python and numpy floats are idealised as real numbers [R]: every
      energy the program stores is an integer or half-integer of small
      magnitude, which binary64 represents exactly.
    - Temperatures are positive reals, as in the data model; statements
      that depend on [exp] or on a division by the temperature carry that
      hypothesis.
    - The global numpy generator is an explicit state: the sequence of
      raw outcomes it will deliver, one per call, and the number of calls
      made so far.  Each call reduces its raw outcome to the range it
      draws from.  A computation is a function from the generator state
      to either a value with the new generator state or the Python
      exception that aborted it.
    - Array accesses are modelled for indices inside the array, which is
      all the program produces: sites come from [randint(0, size)], from
      [range(size)] or from [pbc]. *)

From Stdlib Require Import String.
From Stdlib Require Import ZArith List Lia Bool.
From Stdlib Require Import Reals Lra.
Import ListNotations.

Local Open Scope Z_scope.

(** ** Exceptions and the generator monad *)

Inductive exn : Type :=
| ValueError
| ZeroDivisionError
| IndexError
| AttributeError.

Inductive result (A : Type) : Type :=
| Ok (a : A)
| Raise (e : exn).

Arguments Ok {A} a.
Arguments Raise {A} e.

Module Rng.

(** [tape k] is the raw outcome delivered to the k-th call of the
    generator, [pos] the number of calls made so far. *)
Record rng : Type := mk_rng { tape : nat -> Z; pos : nat }.

Definition advance (k : nat) (g : rng) : rng :=
  {| tape := tape g; pos := (pos g + k)%nat |}.

Definition M (A : Type) : Type := rng -> result (A * rng).

Definition ret {A} (a : A) : M A := fun g => Ok (a, g).

Definition bind {A B} (c : M A) (k : A -> M B) : M B :=
  fun g => match c g with
           | Ok (a, g') => k a g'
           | Raise e => Raise e
           end.

Definition raise {A} (e : exn) : M A := fun _ => Raise e.

Definition next_raw : M Z :=
  fun g => Ok (tape g (pos g), advance 1 g).

(** [np.random.randint(low, high)]: an integer of [[low, high)]; numpy
    raises [ValueError] when the interval is empty. *)
Definition randint (low high : Z) : M Z :=
  if high <=? low then raise ValueError
  else bind next_raw (fun x => ret (low + x mod (high - low))).

(** [np.random.random()]: a 53-bit fraction [k / 2^53] of [[0, 1)]. *)
Definition random : M R :=
  bind next_raw (fun x => ret (IZR (x mod 2 ^ 53) / IZR (2 ^ 53))%R).

End Rng.

Import Rng.

(** The draw made by [random] in generator state [g]. *)
Definition uniform (g : rng) : R :=
  (IZR (tape g (pos g) mod 2 ^ 53) / IZR (2 ^ 53))%R.

Declare Scope monad_scope.
Delimit Scope monad_scope with monad.
Notation "x <- c ;; k" := (bind c (fun x => k))
  (at level 61, c at next level, right associativity) : monad_scope.
Notation "' pat <- c ;; k" := (bind c (fun x => match x with pat => k end))
  (at level 61, pat pattern, c at next level, right associativity) : monad_scope.
Open Scope monad_scope.

(** [for x in l: s = body x s] *)
Fixpoint for_each {A S : Type} (l : list A) (body : A -> S -> M S) (s : S) : M S :=
  match l with
  | [] => ret s
  | a :: t => s' <- body a s ;; for_each t body s'
  end.

(** [range(n)] *)
Definition range (n : Z) : list Z := map Z.of_nat (seq 0 (Z.to_nat n)).

(** ** The lattice *)

Definition grid : Type := list (list Z).

Fixpoint list_set {A : Type} (l : list A) (k : nat) (v : A) : list A :=
  match l, k with
  | [], _ => []
  | _ :: t, O => v :: t
  | x :: t, S k' => x :: list_set t k' v
  end.

(** [lattice[i, j]] for an index inside the array. *)
Definition grid_get (g : grid) (ij : Z * Z) : Z :=
  nth (Z.to_nat (snd ij)) (nth (Z.to_nat (fst ij)) g []) 0.

(** [lattice[i, j] = v] for an index inside the array. *)
Definition grid_set (g : grid) (ij : Z * Z) (v : Z) : grid :=
  list_set g (Z.to_nat (fst ij))
           (list_set (nth (Z.to_nat (fst ij)) g []) (Z.to_nat (snd ij)) v).

Record IsingModel : Type := mkIsing {
  size : Z * Z;
  temp : R;
  ini : string;
  dynamics : string;
  lattice : grid;
  total_E : R
}.

Definition set_lattice (self : IsingModel) (g : grid) : IsingModel :=
  {| size := size self; temp := temp self; ini := ini self;
     dynamics := dynamics self; lattice := g; total_E := total_E self |}.

Definition set_total_E (self : IsingModel) (e : R) : IsingModel :=
  {| size := size self; temp := temp self; ini := ini self;
     dynamics := dynamics self; lattice := lattice self; total_E := e |}.

Definition pbc (self : IsingModel) (indices : Z * Z) : Z * Z :=
  (fst indices mod fst (size self), snd indices mod snd (size self)).

Definition neighbour_sum (self : IsingModel) (indices : Z * Z) : Z :=
  let '(i, j) := indices in
  grid_get (lattice self) (pbc self (i - 1, j))
  + grid_get (lattice self) (pbc self (i + 1, j))
  + grid_get (lattice self) (pbc self (i, j - 1))
  + grid_get (lattice self) (pbc self (i, j + 1)).

Definition get_dE (self : IsingModel) (indices : Z * Z) : Z :=
  2 * grid_get (lattice self) indices * neighbour_sum self indices.

Definition unit_E (self : IsingModel) (indices : Z * Z) : Z :=
  - grid_get (lattice self) indices * neighbour_sum self indices.

(** The integer accumulated by the two loops of [get_total_E]. *)
Definition sum_unit_E (self : IsingModel) : Z :=
  fold_left
    (fun acc i =>
       fold_left (fun acc' j => acc' + unit_E self (i, j))
                 (range (snd (size self))) acc)
    (range (fst (size self))) 0.

Definition get_total_E (self : IsingModel) : R :=
  (IZR (sum_unit_E self) / 2)%R.

(** [np.sum(self.lattice)] and [get_abs_M]. *)
Definition np_sum (g : grid) : Z :=
  fold_left Z.add (concat g) 0.

Definition get_abs_M (self : IsingModel) : Z := Z.abs (np_sum (lattice self)).

(** ** Construction *)

Fixpoint replicateM {A : Type} (n : nat) (c : M A) : M (list A) :=
  match n with
  | O => ret []
  | S n' => x <- c ;; xs <- replicateM n' c ;; ret (x :: xs)
  end.

(** numpy refuses a shape with a negative dimension. *)
Definition check_shape (sz : Z * Z) : M unit :=
  if (fst sz <? 0) || (snd sz <? 0) then raise ValueError else ret tt.

(** [np.ones(size, dtype=int)] *)
Definition np_ones (sz : Z * Z) : M grid :=
  _ <- check_shape sz ;;
  ret (repeat (repeat 1 (Z.to_nat (snd sz))) (Z.to_nat (fst sz))).

(** [np.random.choice(a=[-1, 1], size=size)], one draw per site. *)
Definition np_random_choice (a : list Z) (sz : Z * Z) : M grid :=
  _ <- check_shape sz ;;
  replicateM (Z.to_nat (fst sz))
    (replicateM (Z.to_nat (snd sz))
       (k <- randint 0 (Z.of_nat (length a)) ;; ret (nth (Z.to_nat k) a 0))).

(** [lattice[:, 25:] = -np.ones((50, 25))]: the assignment broadcasts only
    when the slice has shape (50, 25), that is for a 50 x 50 lattice. *)
Definition assign_right_half (sz : Z * Z) (g : grid) : M grid :=
  if (fst sz =? 50) && (snd sz =? 50)
  then ret (map (fun row => firstn 25 row ++ repeat (-1) 25) g)
  else raise ValueError.

Definition with_fresh_energy (sz : Z * Z) (t : R) (i d : string) (g : grid)
  : IsingModel :=
  let self := mkIsing sz t i d g 0%R in
  set_total_E self (get_total_E self).

(** [build_lattice] tests [ini] three times in sequence; when no test
    fires the object is left without [lattice] and [total_E], which is
    the [None] outcome. *)
Definition build_lattice (sz : Z * Z) (t : R) (i d : string)
  : M (option IsingModel) :=
  a1 <- (if String.eqb i "r"
         then g <- np_random_choice [-1; 1] sz ;;
              ret (Some (with_fresh_energy sz t i d g))
         else ret None) ;;
  a2 <- (if String.eqb i "u"
         then g <- np_ones sz ;;
              ret (Some (with_fresh_energy sz t i d g))
         else ret a1) ;;
  if String.eqb i "k"
  then g <- np_ones sz ;;
       g' <- assign_right_half sz g ;;
       ret (Some (with_fresh_energy sz t i d g'))
  else ret a2.

(** [IsingModel.__init__] *)
Definition init (sz : Z * Z) (t : R) (i d : string) : M (option IsingModel) :=
  build_lattice sz t i d.

(** ** The Metropolis rule and the two moves *)

(** The result is [None] when the Python function falls through every
    branch and returns nothing.  The model is that of a positive
    temperature: there [-dE / temp] is at most 0 on the drawing branch
    and [m.exp] cannot overflow.  At a negative temperature [m.exp] can
    raise [OverflowError], which is not represented; statements about the
    outcome of a move are meant at positive temperature. *)
Definition metropolis (self : IsingModel) (dE : Z) : M (option bool) :=
  if dE <? 0 then ret (Some true)
  else if dE >=? 0 then
    let prob := Rmin 1 (exp (IZR (- dE) / temp self)) in
    r <- random ;;
    if Rle_dec r prob then ret (Some true)
    else if Rgt_dec r prob then ret (Some false)
    else ret None
  else ret None.

(** The probability with which [metropolis] accepts: the [prob] of the
    source, and 1 on the branch that returns before drawing. *)
Definition accept_prob (self : IsingModel) (dE : Z) : R :=
  if dE <? 0 then 1%R else Rmin 1 (exp (IZR (- dE) / temp self)).

(** [outcome == True] *)
Definition is_True (outcome : option bool) : bool :=
  match outcome with
  | Some true => true
  | _ => false
  end.

(** [self.lattice[indices] *= -1] *)
Definition flip (self : IsingModel) (indices : Z * Z) : IsingModel :=
  set_lattice self
    (grid_set (lattice self) indices (grid_get (lattice self) indices * -1)).

(** The pair [(np.random.randint(0, size[0]), np.random.randint(0, size[1]))] *)
Definition random_site (self : IsingModel) : M (Z * Z) :=
  i <- randint 0 (fst (size self)) ;;
  j <- randint 0 (snd (size self)) ;;
  ret (i, j).

Definition glauber (self : IsingModel) : M IsingModel :=
  indices <- random_site self ;;
  let dE := get_dE self indices in
  outcome <- metropolis self dE ;;
  if is_True outcome
  then let self1 := flip self indices in
       ret (set_total_E self1 (total_E self1 + IZR dE)%R)
  else ret self.

Definition kawasaki (self : IsingModel) : M IsingModel :=
  indices_1 <- random_site self ;;
  indices_2 <- random_site self ;;
  if negb (grid_get (lattice self) indices_1 =? grid_get (lattice self) indices_2)
  then
    let dE_1 := get_dE self indices_1 in
    let self1 :=
      set_lattice self
        (grid_set (lattice self) indices_1 (-1 * grid_get (lattice self) indices_1)) in
    let dE_2 := get_dE self1 indices_2 in
    let self2 :=
      set_lattice self1
        (grid_set (lattice self1) indices_1 (-1 * grid_get (lattice self1) indices_1)) in
    let dE := dE_1 + dE_2 in
    outcome <- metropolis self2 dE ;;
    if is_True outcome
    then let self3 := flip self2 indices_1 in
         let self4 := flip self3 indices_2 in
         ret (set_total_E self4 (total_E self4 + IZR dE)%R)
    else ret self2
  else ret self.

(** ** Observables *)

Definition Rsum (xs : list R) : R := fold_left Rplus xs 0%R.

(** [np.mean] and [np.var] (population variance). *)
Definition np_mean (xs : list R) : R := (Rsum xs / INR (length xs))%R.

Definition np_var (xs : list R) : R :=
  let mu := np_mean xs in
  np_mean (map (fun x => ((x - mu) * (x - mu))%R) xs).

Definition get_avg_obs (self : IsingModel) (observables : list R) : R :=
  np_mean observables.

Definition get_heat_capacity (self : IsingModel) (energies : list R) : R :=
  (np_var energies
   / (IZR (fst (size self) * snd (size self)) * (temp self * temp self)))%R.

Definition get_chi (self : IsingModel) (mags : list R) : R :=
  (np_var mags / (IZR (fst (size self) * snd (size self)) * temp self))%R.

(** Python list indexing [xs[r]]. *)
Definition py_index {A : Type} (xs : list A) (r : Z) : M A :=
  let k := if r <? 0 then r + Z.of_nat (length xs) else r in
  if k <? 0 then raise IndexError
  else match nth_error xs (Z.to_nat k) with
       | Some x => ret x
       | None => raise IndexError
       end.

(** The inner loop of [bootstrap] and of [bootstrap_chi]:
    [[
      sampling_data = []
      for j in range(len(xs)):
          r = np.random.randint(0, (len(xs)-1))
          sampling_data.append(xs[r])
    ]] *)
Definition resample (xs : list R) : M (list R) :=
  for_each (range (Z.of_nat (length xs)))
    (fun _ sampling_data =>
       r <- randint 0 (Z.of_nat (length xs) - 1) ;;
       x <- py_index xs r ;;
       ret (sampling_data ++ [x]))
    [].

Definition bootstrap (self : IsingModel) (energies : list R) (samples : Z) : M R :=
  error_data <-
    for_each (range samples)
      (fun _ error_data =>
         sampling_data <- resample energies ;;
         ret (error_data ++ [get_heat_capacity self sampling_data]))
      [] ;;
  ret (sqrt (np_var error_data)).

Definition bootstrap_chi (self : IsingModel) (mags : list R) (samples : Z) : M R :=
  error_data <-
    for_each (range samples)
      (fun _ error_data =>
         sampling_data <- resample mags ;;
         ret (error_data ++ [get_chi self sampling_data]))
      [] ;;
  ret (sqrt (np_var error_data)).

(** ** The batch driver ([IsingPlotter.main]) *)

(** The run parameters read from the parameter file. *)
Record params : Type := mkParams {
  sweeps : Z;
  eqm_sweeps : Z;
  n : Z;
  samples : Z;
  dynamics_name : string;
  lattice_size : Z * Z
}.

(** The lists filled by the driver and the lines written to the two
    output files; a line is the list of its [%lf] fields. *)
Record driver : Type := mkDriver {
  energies : list R;
  magnetisations : list R;
  heat_capacties : list R;
  heat_cap_errors : list R;
  chis : list R;
  chi_errors : list R;
  glauber_output : list (list R);
  kawasaki_output : list (list R)
}.

Definition empty_driver : driver := mkDriver [] [] [] [] [] [] [] [].

(** [(j+1) >= eqm_sweeps and (j+1) % n == 0], with Python's short-circuit
    [and] and its [ZeroDivisionError] on a zero modulus. *)
Definition sample_due (p : params) (j : Z) : M bool :=
  if j + 1 >=? eqm_sweeps p
  then if n p =? 0 then raise ZeroDivisionError
       else ret ((j + 1) mod n p =? 0)
  else ret false.

(** What one temperature point carries through its sweeps: the lattice,
    [energy_per_temp] and [mag_per_temp]. *)
Definition point : Type := (IsingModel * list R * list Z)%type.

(** Body of [for j in range(sweeps)] in the Glauber branch. *)
Definition glauber_sweep (p : params) (j : Z) (s : point) : M point :=
  for_each (range (fst (lattice_size p) * snd (lattice_size p)))
    (fun _ '(l, energy_per_temp, mag_per_temp) =>
       l' <- glauber l ;;
       due <- sample_due p j ;;
       if due
       then ret (l', energy_per_temp ++ [total_E l'], mag_per_temp ++ [get_abs_M l'])
       else ret (l', energy_per_temp, mag_per_temp))
    s.

(** Body of [for l in range(sweeps)] in the Kawasaki branch. *)
Definition kawasaki_sweep (p : params) (j : Z) (s : point) : M point :=
  for_each (range (fst (lattice_size p) * snd (lattice_size p)))
    (fun _ '(l, energy_per_temp, mag_per_temp) =>
       l' <- kawasaki l ;;
       due <- sample_due p j ;;
       if due
       then ret (l', energy_per_temp ++ [total_E l'], mag_per_temp)
       else ret (l', energy_per_temp, mag_per_temp))
    s.

(** Body of [for i in range(temp_range.size)].  The lattice is built with
    [ini='u'], so the constructor always yields a lattice and the [None]
    case below is never taken. *)
Definition temperature_point (p : params) (temp_range : list R) (i : Z) (d : driver)
  : M driver :=
  t <- py_index temp_range i ;;
  built <- init (lattice_size p) t "u" (dynamics_name p) ;;
  match built with
  | None => raise AttributeError
  | Some lattice0 =>
    if String.eqb (dynamics lattice0) "glauber" then
      '(l, energy_per_temp, mag_per_temp) <-
        for_each (range (sweeps p)) (glauber_sweep p) (lattice0, [], []) ;;
      let mags := map IZR mag_per_temp in
      let energies1 := energies d ++ [get_avg_obs l energy_per_temp] in
      let magnetisations1 := magnetisations d ++ [get_avg_obs l mags] in
      let heat_capacties1 :=
        heat_capacties d ++ [get_heat_capacity l energy_per_temp] in
      e1 <- bootstrap l energy_per_temp (samples p) ;;
      let heat_cap_errors1 := heat_cap_errors d ++ [e1] in
      let chis1 := chis d ++ [get_chi l mags] in
      e2 <- bootstrap_chi l mags (samples p) ;;
      let chi_errors1 := chi_errors d ++ [e2] in
      f1 <- py_index energies1 i ;;
      f2 <- py_index magnetisations1 i ;;
      f3 <- py_index heat_capacties1 i ;;
      f4 <- py_index heat_cap_errors1 i ;;
      f5 <- py_index chis1 i ;;
      f6 <- py_index chi_errors1 i ;;
      ret (mkDriver energies1 magnetisations1 heat_capacties1 heat_cap_errors1
             chis1 chi_errors1
             (glauber_output d ++ [[t; f1; f2; f3; f4; f5; f6]])
             (kawasaki_output d))
    else if String.eqb (dynamics lattice0) "kawasaki" then
      '(l, energy_per_temp, mag_per_temp) <-
        for_each (range (sweeps p)) (kawasaki_sweep p) (lattice0, [], []) ;;
      let energies1 := energies d ++ [get_avg_obs l energy_per_temp] in
      let heat_capacties1 :=
        heat_capacties d ++ [get_heat_capacity l energy_per_temp] in
      e1 <- bootstrap l energy_per_temp (samples p) ;;
      let heat_cap_errors1 := heat_cap_errors d ++ [e1] in
      f1 <- py_index energies1 i ;;
      f3 <- py_index heat_capacties1 i ;;
      f4 <- py_index heat_cap_errors1 i ;;
      ret (mkDriver energies1 (magnetisations d) heat_capacties1 heat_cap_errors1
             (chis d) (chi_errors d)
             (glauber_output d)
             (kawasaki_output d ++ [[t; f1; f3; f4]]))
    else ret d
  end.

(** The simulation loop of [main], from the empty lists, over the
    temperatures of [temp_range]. *)
Definition main (p : params) (temp_range : list R) : M driver :=
  for_each (range (Z.of_nat (length temp_range)))
    (temperature_point p temp_range) empty_driver.

(** ** Vocabulary of the statements *)

(** The array has the shape recorded in [size]. *)
Definition shape_ok (self : IsingModel) : Prop :=
  0 <= fst (size self) /\ 0 <= snd (size self) /\
  length (lattice self) = Z.to_nat (fst (size self)) /\
  Forall (fun row => length row = Z.to_nat (snd (size self))) (lattice self).

(** Every site holds a spin, +1 or -1. *)
Definition spins_ok (self : IsingModel) : Prop :=
  Forall (Forall (fun s => s = 1 \/ s = -1)) (lattice self).

(** A site of the lattice. *)
Definition in_grid (self : IsingModel) (q : Z * Z) : Prop :=
  0 <= fst q < fst (size self) /\ 0 <= snd q < snd (size self).

Definition site_eqb (p q : Z * Z) : bool :=
  (fst p =? fst q) && (snd p =? snd q).

Definition sum_list {A : Type} (f : A -> Z) (l : list A) : Z :=
  fold_right (fun x acc => f x + acc) 0 l.

(** Sum of [f] over the sites of a [rows] x [cols] lattice. *)
Definition grid_sum (rows cols : Z) (f : Z * Z -> Z) : Z :=
  sum_list (fun i => sum_list (fun j => f (i, j)) (range cols)) (range rows).

(** A finite run of the dynamics: any interleaving of the two moves. *)
Inductive move : Type :=
| Glauber
| Kawasaki.

Definition step (m : move) (self : IsingModel) : M IsingModel :=
  match m with
  | Glauber => glauber self
  | Kawasaki => kawasaki self
  end.

Definition run_moves (ms : list move) (self : IsingModel) : M IsingModel :=
  for_each ms step self.

(** The lattices seen after each of [k] successive calls of [move_fn]. *)
Fixpoint trace (move_fn : IsingModel -> M IsingModel) (k : nat) (self : IsingModel)
  : M (list IsingModel) :=
  match k with
  | O => ret []
  | S k' =>
    self' <- move_fn self ;;
    rest <- trace move_fn k' self' ;;
    ret (self' :: rest)
  end.

(** The site picked by [random_site] in generator state [g]. *)
Definition drawn_site (self : IsingModel) (g : rng) : Z * Z :=
  (tape g (pos g) mod fst (size self),
   tape g (pos g + 1)%nat mod snd (size self)).

(** The stored energy agrees with the recomputation from scratch. *)
Definition energy_ok (self : IsingModel) : Prop :=
  total_E self = get_total_E self.

(** ** Concrete inputs used by the examples *)

(** A generator whose raw outputs are all zero. *)
Definition zero_rng : rng := {| tape := fun _ => 0; pos := 0 |}.

(** The 2 x 2 all-up lattice at temperature 1. *)
Definition up_2x2 : IsingModel :=
  with_fresh_energy (2, 2) 1%R "u" "kawasaki" [[1; 1]; [1; 1]].

(** The single-site lattice at temperature 1: its only site is its own
    neighbour in all four directions. *)
Definition one_site : IsingModel :=
  with_fresh_energy (1, 1) 1%R "u" "glauber" [[1]].

(** The indices drawn by the inner loop of the bootstrap on [len]
    samples, from generator state [g]: one [randint(0, len - 1)] each. *)
Definition resample_indices (len : nat) (g : rng) : list Z :=
  map (fun k => tape g (pos g + k)%nat mod (Z.of_nat len - 1)) (seq 0 len).

(** The sampling test of the driver as a boolean, for a non-zero stride. *)
Definition is_due (p : params) (j : Z) : bool :=
  (j + 1 >=? eqm_sweeps p) && ((j + 1) mod n p =? 0).

(** A batch run on the 2 x 2 lattice: one sweep, sampled. *)
Definition small_run : params :=
  mkParams 1 1 1 1 "glauber" (2, 2).

(** A batch run whose dynamics name is not one of the two known ones. *)
Definition unknown_run : params :=
  mkParams 1 1 1 1 "wolff" (2, 2).

(** ** The interactive front-end *)

(** The update loop of [animate]: [it_per_sweep] moves, each chosen by
    the dynamics name.  The class has no method [kawasaki_2], so that
    branch raises [AttributeError].  Handing the lattice to the image is
    outside the model. *)
Definition animate (it_per_sweep : Z) (self : IsingModel) : M IsingModel :=
  for_each (range it_per_sweep)
    (fun _ s =>
       if String.eqb (dynamics s) "glauber" then glauber s
       else if String.eqb (dynamics s) "kawasaki" then kawasaki s
       else if String.eqb (dynamics s) "kawasaki_2" then raise AttributeError
       else ret s)
    self.

(** Successive frames: one call of [animate] per frame drawn. *)
Fixpoint frames (k : nat) (it_per_sweep : Z) (self : IsingModel) : M IsingModel :=
  match k with
  | O => ret self
  | S k' => self' <- animate it_per_sweep self ;; frames k' it_per_sweep self'
  end.

(** ** More concrete inputs *)

(** A 2 x 2 lattice with one spin down, at site (0, 1). *)
Definition mixed_2x2 : IsingModel :=
  with_fresh_energy (2, 2) 1%R "r" "kawasaki" [[1; -1]; [1; 1]].

(** A generator whose fourth raw outcome is 1 and all others 0: the
    first two sites it picks on a 2 x 2 lattice are (0, 0) and (0, 1). *)
Definition fourth_one_rng : rng :=
  {| tape := fun k => if Nat.eqb k 3 then 1 else 0; pos := 0 |}.



(** What both moves keep: the attributes set at construction, the shape
    of the array and, on a lattice with at least two rows and two
    columns, the agreement of [total_E] with [get_total_E]. *)
Definition kept (self self' : IsingModel) : Prop :=
  size self' = size self /\ dynamics self' = dynamics self /\
  temp self' = temp self /\ shape_ok self' /\
  (2 <= fst (size self) -> 2 <= snd (size self) ->
   energy_ok self -> energy_ok self').




(** * Properties *)

(** ** The generator *)

Lemma randint_ok (low high : Z) (g : rng) :
  low < high ->
  randint low high g = Ok (low + tape g (pos g) mod (high - low), advance 1 g).
Proof.
  intros H. unfold randint.
  destruct (Z.leb_spec high low) as [Hle | _]; [lia | reflexivity].
Qed.

Lemma randint_empty (low high : Z) (g : rng) :
  high <= low -> randint low high g = Raise ValueError.
Proof.
  intros H. unfold randint.
  destruct (Z.leb_spec high low) as [_ | Hlt]; [reflexivity | lia].
Qed.

Lemma randint_range (low high : Z) (g : rng) :
  low < high ->
  low <= low + tape g (pos g) mod (high - low) < high.
Proof.
  intros H.
  pose proof (Z.mod_pos_bound (tape g (pos g)) (high - low)). lia.
Qed.

Lemma random_ok (g : rng) : random g = Ok (uniform g, advance 1 g).
Proof. reflexivity. Qed.

Lemma uniform_range (g : rng) : (0 <= uniform g < 1)%R.
Proof.
  unfold uniform.
  pose proof (Z.mod_pos_bound (tape g (pos g)) (2 ^ 53) ltac:(lia)) as [Hlo Hhi].
  apply IZR_le in Hlo. apply IZR_lt in Hhi.
  assert (Hp : (0 < IZR (2 ^ 53))%R) by (apply IZR_lt; lia).
  split.
  - apply Rmult_le_reg_r with (IZR (2 ^ 53)); [exact Hp |].
    unfold Rdiv. rewrite Rmult_assoc, Rinv_l by lra. lra.
  - apply Rmult_lt_reg_r with (IZR (2 ^ 53)); [exact Hp |].
    unfold Rdiv. rewrite Rmult_assoc, Rinv_l by lra. lra.
Qed.

Lemma advance_advance (a b : nat) (g : rng) :
  advance b (advance a g) = advance (a + b) g.
Proof. unfold advance; simpl. f_equal. lia. Qed.

(** ** The Metropolis rule *)

Lemma metropolis_neg (self : IsingModel) (dE : Z) (g : rng) :
  dE < 0 -> metropolis self dE g = Ok (Some true, g).
Proof.
  intros H. unfold metropolis.
  destruct (Z.ltb_spec dE 0) as [_ | Hge]; [reflexivity | lia].
Qed.

Lemma metropolis_nonneg (self : IsingModel) (dE : Z) (g : rng) :
  0 <= dE ->
  metropolis self dE g =
  Ok (Some (if Rle_dec (uniform g) (Rmin 1 (exp (IZR (- dE) / temp self)))
            then true else false), advance 1 g).
Proof.
  intros H. unfold metropolis.
  destruct (Z.ltb_spec dE 0) as [Hlt | _]; [lia |].
  destruct (Z.geb_spec dE 0) as [_ | Hlt]; [| lia].
  unfold bind. rewrite random_ok.
  destruct (Rle_dec _ _) as [Hle | Hnle]; [reflexivity |].
  destruct (Rgt_dec _ _) as [Hgt | Hngt]; [reflexivity |].
  exfalso. apply Hngt. apply Rnot_le_gt. exact Hnle.
Qed.

Lemma accept_prob_bounds (self : IsingModel) (dE : Z) :
  (0 < accept_prob self dE <= 1)%R.
Proof.
  unfold accept_prob. destruct (dE <? 0); [lra |].
  pose proof (exp_pos (IZR (- dE) / temp self)).
  pose proof (Rmin_l 1 (exp (IZR (- dE) / temp self))).
  split; [apply Rmin_glb_lt; lra | lra].
Qed.

(** A draw is accepted exactly when it does not exceed [accept_prob]. *)
Lemma metropolis_accept_prob (self : IsingModel) (dE : Z) (g : rng) :
  exists g',
    metropolis self dE g =
    Ok (Some (if Rle_dec (uniform g) (accept_prob self dE) then true else false), g').
Proof.
  unfold accept_prob.
  destruct (Z.ltb_spec dE 0) as [Hlt | Hge].
  - exists g. rewrite metropolis_neg by exact Hlt.
    destruct (Rle_dec (uniform g) 1) as [_ | Hn]; [reflexivity |].
    exfalso. apply Hn. pose proof (uniform_range g). lra.
  - exists (advance 1 g). apply metropolis_nonneg. exact Hge.
Qed.





(** ** Lists, grids and sums *)

Lemma length_list_set {A : Type} (l : list A) (k : nat) (v : A) :
  length (list_set l k v) = length l.
Proof.
  revert k. induction l as [| x t IH]; intros [| k]; simpl; auto.
Qed.

Lemma nth_list_set_same {A : Type} (l : list A) (k : nat) (v d : A) :
  (k < length l)%nat -> nth k (list_set l k v) d = v.
Proof.
  revert k. induction l as [| x t IH]; intros [| k] H; simpl in *; try lia.
  - reflexivity.
  - apply IH. lia.
Qed.

Lemma nth_list_set_other {A : Type} (l : list A) (k k' : nat) (v d : A) :
  k <> k' -> nth k' (list_set l k v) d = nth k' l d.
Proof.
  revert k k'. induction l as [| x t IH]; intros [| k] [| k'] H; simpl; auto.
  - congruence.
Qed.

Lemma list_set_restore {A : Type} (l : list A) (k : nat) (v d : A) :
  list_set (list_set l k v) k (nth k l d) = l.
Proof.
  revert k. induction l as [| x t IH]; intros [| k]; simpl; auto.
  f_equal. apply IH.
Qed.

Lemma list_set_self {A : Type} (l : list A) (k : nat) (d : A) :
  list_set l k (nth k l d) = l.
Proof.
  revert k. induction l as [| x t IH]; intros [| k]; simpl; auto.
  f_equal. apply IH.
Qed.

Lemma list_set_twice {A : Type} (l : list A) (k : nat) (v w : A) :
  list_set (list_set l k v) k w = list_set l k w.
Proof.
  revert k. induction l as [| x t IH]; intros [| k]; simpl; auto.
  f_equal. apply IH.
Qed.

Lemma Forall_list_set {A : Type} (P : A -> Prop) (l : list A) (k : nat) (v : A) :
  Forall P l -> P v -> Forall P (list_set l k v).
Proof.
  intros Hl Hv. revert k.
  induction Hl as [| x t Hx Ht IH]; intros [| k]; simpl; auto.
Qed.

Lemma Forall_nth_default {A : Type} (P : A -> Prop) (l : list A) (k : nat) (d : A) :
  Forall P l -> P d -> P (nth k l d).
Proof.
  intros Hl Hd. revert k.
  induction Hl as [| x t Hx Ht IH]; intros [| k]; simpl; auto.
Qed.

Lemma list_set_overflow {A : Type} (l : list A) (k : nat) (v : A) :
  (length l <= k)%nat -> list_set l k v = l.
Proof.
  revert k. induction l as [| x t IH]; intros [| k] H; simpl in *; auto; try lia.
  f_equal. apply IH. lia.
Qed.

Lemma grid_get_set_same (g : grid) (p : Z * Z) (v : Z) :
  (Z.to_nat (fst p) < length g)%nat ->
  (Z.to_nat (snd p) < length (nth (Z.to_nat (fst p)) g []))%nat ->
  grid_get (grid_set g p v) p = v.
Proof.
  intros Hi Hj. unfold grid_get, grid_set.
  rewrite nth_list_set_same by exact Hi.
  apply nth_list_set_same. exact Hj.
Qed.

Lemma grid_get_set_other (g : grid) (p q : Z * Z) (v : Z) :
  0 <= fst p -> 0 <= snd p -> 0 <= fst q -> 0 <= snd q -> p <> q ->
  grid_get (grid_set g p v) q = grid_get g q.
Proof.
  intros Hp1 Hp2 Hq1 Hq2 Hne. unfold grid_get, grid_set.
  destruct p as [a b], q as [i j]; simpl in *.
  destruct (Z.eq_dec a i) as [-> | Hai].
  - assert (Hbj : Z.to_nat b <> Z.to_nat j).
    { intros E. apply Hne. f_equal. lia. }
    destruct (Nat.lt_ge_cases (Z.to_nat i) (length g)) as [Hin | Hout].
    + rewrite nth_list_set_same by exact Hin.
      apply nth_list_set_other. exact Hbj.
    + rewrite (list_set_overflow g) by exact Hout. reflexivity.
  - rewrite nth_list_set_other by lia. reflexivity.
Qed.

Lemma grid_set_restore (g : grid) (p : Z * Z) (v : Z) :
  grid_set (grid_set g p v) p (grid_get g p) = g.
Proof.
  unfold grid_set, grid_get.
  destruct (Nat.lt_ge_cases (Z.to_nat (fst p)) (length g)) as [Hin | Hout].
  - rewrite nth_list_set_same by exact Hin.
    rewrite list_set_twice, list_set_restore.
    apply list_set_self.
  - rewrite (list_set_overflow g) by exact Hout.
    apply list_set_overflow. exact Hout.
Qed.

Lemma in_range (n x : Z) : In x (range n) <-> 0 <= x < n.
Proof.
  unfold range. rewrite in_map_iff. split.
  - intros (k & <- & Hk). apply in_seq in Hk. lia.
  - intros H. exists (Z.to_nat x). split; [lia |]. apply in_seq. lia.
Qed.

Lemma length_range (n : Z) : length (range n) = Z.to_nat n.
Proof. unfold range. rewrite length_map, length_seq. reflexivity. Qed.

Lemma fold_left_sum_list {A : Type} (f : A -> Z) (l : list A) (a : Z) :
  fold_left (fun acc x => acc + f x) l a = a + sum_list f l.
Proof.
  revert a. induction l as [| x t IH]; intros a; simpl.
  - lia.
  - rewrite IH. lia.
Qed.

Lemma fold_left_nested_sum {A B : Type} (f : A -> B -> Z) (la : list A) (lb : list B) (a : Z) :
  fold_left (fun acc i => fold_left (fun acc' j => acc' + f i j) lb acc) la a
  = a + sum_list (fun i => sum_list (f i) lb) la.
Proof.
  revert a. induction la as [| x t IH]; intros a; simpl.
  - lia.
  - rewrite IH, fold_left_sum_list. lia.
Qed.

Lemma sum_list_ext {A : Type} (f h : A -> Z) (l : list A) :
  (forall x, In x l -> f x = h x) -> sum_list f l = sum_list h l.
Proof.
  induction l as [| x t IH]; intros H; simpl.
  - reflexivity.
  - rewrite (H x) by (left; reflexivity).
    rewrite IH by (intros y Hy; apply H; right; exact Hy). reflexivity.
Qed.

Lemma sum_list_plus {A : Type} (f h : A -> Z) (l : list A) :
  sum_list (fun x => f x + h x) l = sum_list f l + sum_list h l.
Proof. induction l as [| x t IH]; simpl; lia. Qed.

Lemma sum_list_opp {A : Type} (f : A -> Z) (l : list A) :
  sum_list (fun x => - f x) l = - sum_list f l.
Proof. induction l as [| x t IH]; simpl; lia. Qed.

Lemma sum_list_indicator_seq (b c : Z) (a k : nat) :
  sum_list (fun j => if j =? b then c else 0) (map Z.of_nat (seq a k))
  = if (Z.of_nat a <=? b) && (b <? Z.of_nat (a + k)) then c else 0.
Proof.
  revert a. induction k as [| k IH]; intros a; simpl.
  - destruct (Z.leb_spec (Z.of_nat a) b), (Z.ltb_spec b (Z.of_nat (a + 0)));
      simpl; try reflexivity; lia.
  - rewrite IH.
    destruct (Z.eqb_spec (Z.of_nat a) b),
             (Z.leb_spec (Z.of_nat (S a)) b),
             (Z.ltb_spec b (Z.of_nat (S a + k))),
             (Z.leb_spec (Z.of_nat a) b),
             (Z.ltb_spec b (Z.of_nat (a + S k))); simpl; lia.
Qed.

Lemma sum_list_indicator (b c n : Z) :
  0 <= b < n ->
  sum_list (fun j => if j =? b then c else 0) (range n) = c.
Proof.
  intros H. unfold range. rewrite sum_list_indicator_seq.
  destruct (Z.leb_spec (Z.of_nat 0) b), (Z.ltb_spec b (Z.of_nat (0 + Z.to_nat n)));
    simpl; lia.
Qed.

Lemma sum_list_zero {A : Type} (l : list A) : sum_list (fun _ => 0) l = 0.
Proof. induction l; simpl; lia. Qed.

Lemma grid_sum_ext (rows cols : Z) (f h : Z * Z -> Z) :
  (forall q, 0 <= fst q < rows -> 0 <= snd q < cols -> f q = h q) ->
  grid_sum rows cols f = grid_sum rows cols h.
Proof.
  intros H. unfold grid_sum.
  apply sum_list_ext. intros i Hi. apply sum_list_ext. intros j Hj.
  apply in_range in Hi. apply in_range in Hj. apply H; simpl; lia.
Qed.

Lemma grid_sum_plus (rows cols : Z) (f h : Z * Z -> Z) :
  grid_sum rows cols (fun q => f q + h q)
  = grid_sum rows cols f + grid_sum rows cols h.
Proof.
  unfold grid_sum. rewrite <- sum_list_plus.
  apply sum_list_ext. intros i _. apply sum_list_plus.
Qed.

Lemma grid_sum_opp (rows cols : Z) (f : Z * Z -> Z) :
  grid_sum rows cols (fun q => - f q) = - grid_sum rows cols f.
Proof.
  unfold grid_sum. rewrite <- sum_list_opp.
  apply sum_list_ext. intros i _. apply sum_list_opp.
Qed.

Lemma grid_sum_indicator (rows cols : Z) (x : Z * Z) (c : Z) :
  0 <= fst x < rows -> 0 <= snd x < cols ->
  grid_sum rows cols (fun q => if site_eqb q x then c else 0) = c.
Proof.
  intros Hi Hj. unfold grid_sum, site_eqb. simpl.
  rewrite (sum_list_ext _ (fun i => if i =? fst x then c else 0)).
  - apply sum_list_indicator. exact Hi.
  - intros i _. destruct (Z.eqb_spec i (fst x)); simpl.
    + apply sum_list_indicator. exact Hj.
    + apply sum_list_zero.
Qed.

Lemma site_eqb_spec (p q : Z * Z) : reflect (p = q) (site_eqb p q).
Proof.
  unfold site_eqb. destruct p as [a b], q as [i j]; simpl.
  destruct (Z.eqb_spec a i), (Z.eqb_spec b j); simpl; constructor; congruence.
Qed.

Lemma sum_unit_E_grid_sum (self : IsingModel) :
  sum_unit_E self = grid_sum (fst (size self)) (snd (size self)) (unit_E self).
Proof.
  unfold sum_unit_E, grid_sum.
  rewrite (fold_left_nested_sum (fun i j => unit_E self (i, j))). lia.
Qed.

(** ** Arithmetic of the torus *)

Lemma mod_pred_torus (m i : Z) :
  0 <= i < m -> (i - 1) mod m = if i =? 0 then m - 1 else i - 1.
Proof.
  intros H. destruct (Z.eqb_spec i 0) as [-> | Hne].
  - symmetry. apply (Z.mod_unique (0 - 1) m (-1) (m - 1)); lia.
  - apply Z.mod_small. lia.
Qed.

Lemma mod_succ_torus (m i : Z) :
  0 <= i < m -> (i + 1) mod m = if i =? m - 1 then 0 else i + 1.
Proof.
  intros H. destruct (Z.eqb_spec i (m - 1)) as [-> | Hne].
  - symmetry. apply (Z.mod_unique (m - 1 + 1) m 1 0); lia.
  - apply Z.mod_small. lia.
Qed.

Lemma pred_succ_torus (m i a : Z) :
  0 <= i < m -> 0 <= a < m -> ((i - 1) mod m = a <-> i = (a + 1) mod m).
Proof.
  intros Hi Ha. rewrite mod_pred_torus, mod_succ_torus by assumption.
  destruct (Z.eqb_spec i 0), (Z.eqb_spec a (m - 1)); lia.
Qed.

Lemma succ_pred_torus (m i a : Z) :
  0 <= i < m -> 0 <= a < m -> ((i + 1) mod m = a <-> i = (a - 1) mod m).
Proof.
  intros Hi Ha. rewrite mod_pred_torus, mod_succ_torus by assumption.
  destruct (Z.eqb_spec a 0), (Z.eqb_spec i (m - 1)); lia.
Qed.

Lemma pred_torus_moves (m a : Z) : 2 <= m -> 0 <= a < m -> (a - 1) mod m <> a.
Proof.
  intros Hm Ha. rewrite mod_pred_torus by assumption.
  destruct (Z.eqb_spec a 0); lia.
Qed.

Lemma succ_torus_moves (m a : Z) : 2 <= m -> 0 <= a < m -> (a + 1) mod m <> a.
Proof.
  intros Hm Ha. rewrite mod_succ_torus by assumption.
  destruct (Z.eqb_spec a (m - 1)); lia.
Qed.

(** ** One flipped spin and the bonds of one direction *)

Section OneDirection.

Variables rows cols : Z.
Variables s s' : Z * Z -> Z.
Variable p : Z * Z.
Variables sigma tau : Z * Z -> Z * Z.

Let inside (q : Z * Z) : Prop := 0 <= fst q < rows /\ 0 <= snd q < cols.

Hypothesis p_inside : inside p.
Hypothesis flipped_here : s' p = - s p.
Hypothesis same_elsewhere : forall q, inside q -> q <> p -> s' q = s q.
Hypothesis sigma_inside : forall q, inside q -> inside (sigma q).
Hypothesis tau_inside : inside (tau p).
Hypothesis sigma_tau : forall q, inside q -> (sigma q = p <-> q = tau p).
Hypothesis sigma_moves : sigma p <> p.

Lemma bond_sum_flip :
  grid_sum rows cols (fun q => s' q * s' (sigma q))
  = grid_sum rows cols (fun q => s q * s (sigma q))
    - 2 * s p * s (sigma p) - 2 * s (tau p) * s p.
Proof.
  rewrite (grid_sum_ext rows cols _
             (fun q => s q * s (sigma q)
                       + ((if site_eqb q p then - (2 * s p * s (sigma p)) else 0)
                          + (if site_eqb q (tau p)
                             then - (2 * s (tau p) * s p) else 0)))).
  - rewrite !grid_sum_plus.
    rewrite !grid_sum_indicator by (apply p_inside || apply tau_inside). lia.
  - intros q Hq1 Hq2.
    assert (Hq : inside q) by (split; assumption).
    destruct (site_eqb_spec q p) as [-> | Hqp].
    + destruct (site_eqb_spec p (tau p)) as [Hpt | _].
      { exfalso. apply sigma_moves. apply sigma_tau; assumption. }
      rewrite flipped_here.
      rewrite (same_elsewhere (sigma p)) by (auto using sigma_inside).
      lia.
    + rewrite (same_elsewhere q) by assumption.
      destruct (site_eqb_spec q (tau p)) as [Hqt | Hqt].
      * assert (Hsq : sigma q = p) by (apply sigma_tau; assumption).
        rewrite Hsq, flipped_here. subst q. lia.
      * assert (Hsq : sigma q <> p).
        { intros E. apply Hqt. apply sigma_tau; assumption. }
        rewrite (same_elsewhere (sigma q)) by (auto using sigma_inside).
        lia.
Qed.

End OneDirection.

(** ** The energy change of one flipped spin *)

Lemma shape_row (self : IsingModel) (p : Z * Z) :
  shape_ok self -> in_grid self p ->
  (Z.to_nat (fst p) < length (lattice self))%nat /\
  (Z.to_nat (snd p) < length (nth (Z.to_nat (fst p)) (lattice self) []))%nat.
Proof.
  intros (Hr & Hc & Hlen & Hrows) [Hi Hj].
  assert (Hin : (Z.to_nat (fst p) < length (lattice self))%nat) by lia.
  split; [exact Hin |].
  rewrite Forall_forall in Hrows.
  rewrite (Hrows (nth (Z.to_nat (fst p)) (lattice self) [])) by (apply nth_In; exact Hin).
  lia.
Qed.

Lemma shape_ok_grid_set (self : IsingModel) (p : Z * Z) (v : Z) :
  shape_ok self -> shape_ok (set_lattice self (grid_set (lattice self) p v)).
Proof.
  intros (Hr & Hc & Hlen & Hrows). unfold shape_ok, grid_set; simpl.
  repeat split; try assumption.
  - rewrite length_list_set. exact Hlen.
  - destruct (Nat.lt_ge_cases (Z.to_nat (fst p)) (length (lattice self))) as [Hin | Hout].
    + apply Forall_list_set; [exact Hrows |].
      rewrite length_list_set.
      rewrite Forall_forall in Hrows. apply Hrows. apply nth_In. exact Hin.
    + rewrite list_set_overflow by exact Hout. exact Hrows.
Qed.

Lemma shape_ok_set_total_E (self : IsingModel) (e : R) :
  shape_ok self -> shape_ok (set_total_E self e).
Proof. intros H. exact H. Qed.

Section FlipEnergy.

Variable self : IsingModel.
Variable p : Z * Z.
Variable v : Z.

Let rows := fst (size self).
Let cols := snd (size self).
Let self' := set_lattice self (grid_set (lattice self) p v).
Let s := grid_get (lattice self).
Let s' := grid_get (lattice self').

Let up (q : Z * Z) : Z * Z := ((fst q - 1) mod rows, snd q mod cols).
Let down (q : Z * Z) : Z * Z := ((fst q + 1) mod rows, snd q mod cols).
Let left (q : Z * Z) : Z * Z := (fst q mod rows, (snd q - 1) mod cols).
Let right (q : Z * Z) : Z * Z := (fst q mod rows, (snd q + 1) mod cols).

Let bonds (f : Z * Z -> Z) (sigma : Z * Z -> Z * Z) : Z :=
  grid_sum rows cols (fun q => f q * f (sigma q)).

Hypothesis shape : shape_ok self.
Hypothesis two_rows : 2 <= rows.
Hypothesis two_cols : 2 <= cols.
Hypothesis p_site : in_grid self p.
Hypothesis negated : v = - grid_get (lattice self) p.

Lemma unit_E_as_bonds (t : IsingModel) :
  size t = size self ->
  grid_sum rows cols (unit_E t)
  = - (bonds (grid_get (lattice t)) up + bonds (grid_get (lattice t)) down
       + bonds (grid_get (lattice t)) left + bonds (grid_get (lattice t)) right).
Proof.
  intros Hsize. unfold bonds.
  rewrite <- !grid_sum_plus, <- grid_sum_opp.
  apply grid_sum_ext. intros [i j] _ _.
  unfold unit_E, neighbour_sum, pbc, up, down, left, right, rows, cols.
  rewrite Hsize. simpl. ring.
Qed.

Lemma flipped_value : s' p = - s p.
Proof.
  unfold s', s, self'. simpl.
  destruct (shape_row self p shape p_site) as [Hi Hj].
  rewrite grid_get_set_same by assumption. exact negated.
Qed.

Lemma other_values (q : Z * Z) :
  (0 <= fst q < rows /\ 0 <= snd q < cols) -> q <> p -> s' q = s q.
Proof.
  intros [Hi Hj] Hne. unfold s', s, self'. simpl.
  destruct p_site as [Ha Hb].
  apply grid_get_set_other; try lia. congruence.
Qed.

Lemma sum_unit_E_flip :
  sum_unit_E self' = sum_unit_E self + 2 * get_dE self p.
Proof.
  rewrite !sum_unit_E_grid_sum.
  change (size self') with (size self). fold rows cols.
  rewrite (unit_E_as_bonds self') by reflexivity.
  rewrite (unit_E_as_bonds self) by reflexivity.
  fold s s'.
  destruct p_site as [Ha Hb]. fold rows cols in Ha, Hb.
  assert (Hp : 0 <= fst p < rows /\ 0 <= snd p < cols) by (split; assumption).
  assert (Hmod : forall x m, 0 < m -> 0 <= x mod m < m)
    by (intros; apply Z.mod_pos_bound; assumption).
  unfold bonds.
  rewrite (bond_sum_flip rows cols s s' p up down);
    [ | exact Hp | exact flipped_value | exact other_values | | | | ].
  2: { intros q _. unfold up; simpl. split; apply Hmod; lia. }
  2: { unfold down; simpl. split; apply Hmod; lia. }
  2: { intros [i j] [Hi Hj]. destruct p as [a b]. unfold up, down; simpl in *.
       rewrite !(Z.mod_small j), !(Z.mod_small b) by lia.
       pose proof (pred_succ_torus rows i a Hi Ha) as E.
       split; intros H; injection H as H1 H2; f_equal; try assumption;
         apply E; assumption. }
  2: { destruct p as [a b]. unfold up; simpl in *. intros H. injection H as H1 _.
       exact (pred_torus_moves rows a two_rows Ha H1). }
  rewrite (bond_sum_flip rows cols s s' p down up);
    [ | exact Hp | exact flipped_value | exact other_values | | | | ].
  2: { intros q _. unfold down; simpl. split; apply Hmod; lia. }
  2: { unfold up; simpl. split; apply Hmod; lia. }
  2: { intros [i j] [Hi Hj]. destruct p as [a b]. unfold up, down; simpl in *.
       rewrite !(Z.mod_small j), !(Z.mod_small b) by lia.
       pose proof (succ_pred_torus rows i a Hi Ha) as E.
       split; intros H; injection H as H1 H2; f_equal; try assumption;
         apply E; assumption. }
  2: { destruct p as [a b]. unfold down; simpl in *. intros H. injection H as H1 _.
       exact (succ_torus_moves rows a two_rows Ha H1). }
  rewrite (bond_sum_flip rows cols s s' p left right);
    [ | exact Hp | exact flipped_value | exact other_values | | | | ].
  2: { intros q _. unfold left; simpl. split; apply Hmod; lia. }
  2: { unfold right; simpl. split; apply Hmod; lia. }
  2: { intros [i j] [Hi Hj]. destruct p as [a b]. unfold left, right; simpl in *.
       rewrite !(Z.mod_small i), !(Z.mod_small a) by lia.
       pose proof (pred_succ_torus cols j b Hj Hb) as E.
       split; intros H; injection H as H1 H2; f_equal; try assumption;
         apply E; assumption. }
  2: { destruct p as [a b]. unfold left; simpl in *. intros H. injection H as _ H2.
       exact (pred_torus_moves cols b two_cols Hb H2). }
  rewrite (bond_sum_flip rows cols s s' p right left);
    [ | exact Hp | exact flipped_value | exact other_values | | | | ].
  2: { intros q _. unfold right; simpl. split; apply Hmod; lia. }
  2: { unfold left; simpl. split; apply Hmod; lia. }
  2: { intros [i j] [Hi Hj]. destruct p as [a b]. unfold left, right; simpl in *.
       rewrite !(Z.mod_small i), !(Z.mod_small a) by lia.
       pose proof (succ_pred_torus cols j b Hj Hb) as E.
       split; intros H; injection H as H1 H2; f_equal; try assumption;
         apply E; assumption. }
  2: { destruct p as [a b]. unfold right; simpl in *. intros H. injection H as _ H2.
       exact (succ_torus_moves cols b two_cols Hb H2). }
  unfold get_dE, neighbour_sum, pbc. fold rows cols s.
  destruct p as [a b]. unfold up, down, left, right. simpl fst. simpl snd.
  ring.
Qed.

End FlipEnergy.

(** ** The moves, step by step *)

Lemma random_site_ok (self : IsingModel) (g : rng) :
  0 < fst (size self) -> 0 < snd (size self) ->
  random_site self g = Ok (drawn_site self g, advance 2 g).
Proof.
  intros Hr Hc. unfold random_site, bind.
  rewrite randint_ok by exact Hr.
  rewrite randint_ok by exact Hc.
  unfold ret, drawn_site. simpl.
  rewrite !Z.sub_0_r. rewrite advance_advance. reflexivity.
Qed.

Lemma drawn_site_in_grid (self : IsingModel) (g : rng) :
  0 < fst (size self) -> 0 < snd (size self) ->
  in_grid self (drawn_site self g).
Proof.
  intros Hr Hc. unfold in_grid, drawn_site; simpl.
  split; apply Z.mod_pos_bound; assumption.
Qed.

Lemma set_lattice_same (self : IsingModel) :
  set_lattice self (lattice self) = self.
Proof. destruct self; reflexivity. Qed.

Lemma flip_as_set (self : IsingModel) (p : Z * Z) :
  flip self p
  = set_lattice self (grid_set (lattice self) p (- grid_get (lattice self) p)).
Proof.
  unfold flip. f_equal. f_equal. lia.
Qed.

(** What [glauber] does, given the decision of [metropolis]. *)
Lemma glauber_run (self : IsingModel) (g : rng) :
  0 < fst (size self) -> 0 < snd (size self) ->
  let p := drawn_site self g in
  let dE := get_dE self p in
  exists (b : bool) (g' : rng),
    metropolis self dE (advance 2 g) = Ok (Some b, g') /\
    glauber self g
    = Ok (if b then set_total_E (flip self p) (total_E self + IZR dE)%R else self, g').
Proof.
  intros Hr Hc p dE.
  destruct (metropolis_accept_prob self dE (advance 2 g)) as [g' Hm].
  eexists; exists g'. split; [exact Hm |].
  unfold glauber, bind. rewrite random_site_ok by assumption.
  fold p. fold dE. rewrite Hm.
  destruct (Rle_dec _ _); reflexivity.
Qed.

(** What [kawasaki] does on unequal spins, given the decision of
    [metropolis]: the trial flip of the first site is undone before the
    decision, so the lattice is touched only by an accepted exchange. *)
Lemma kawasaki_run (self : IsingModel) (g : rng) :
  shape_ok self -> 0 < fst (size self) -> 0 < snd (size self) ->
  let p1 := drawn_site self g in
  let p2 := drawn_site self (advance 2 g) in
  grid_get (lattice self) p1 <> grid_get (lattice self) p2 ->
  let dE := get_dE self p1 + get_dE (flip self p1) p2 in
  exists (b : bool) (g' : rng),
    metropolis self dE (advance 4 g) = Ok (Some b, g') /\
    kawasaki self g
    = Ok (if b
          then set_total_E (flip (flip self p1) p2) (total_E self + IZR dE)%R
          else self, g').
Proof.
  intros Hshape Hr Hc p1 p2 Hne dE.
  destruct (metropolis_accept_prob self dE (advance 4 g)) as [g' Hm].
  eexists; exists g'. split; [exact Hm |].
  unfold kawasaki, bind.
  rewrite random_site_ok by assumption.
  rewrite random_site_ok by assumption.
  rewrite advance_advance. simpl Nat.add.
  fold p1. fold p2.
  destruct (Z.eqb_spec (grid_get (lattice self) p1) (grid_get (lattice self) p2))
    as [E | _]; [contradiction |].
  cbv beta iota zeta delta [negb].
  assert (Hin : in_grid self p1) by (apply drawn_site_in_grid; assumption).
  destruct (shape_row self p1 Hshape Hin) as [Hi Hj].
  assert (Hself1 :
    set_lattice self
      (grid_set (lattice self) p1 (-1 * grid_get (lattice self) p1))
    = flip self p1).
  { unfold flip. f_equal. f_equal. lia. }
  rewrite Hself1.
  assert (Hself2 :
    set_lattice (flip self p1)
      (grid_set (lattice (flip self p1)) p1
         (-1 * grid_get (lattice (flip self p1)) p1))
    = self).
  { unfold flip, set_lattice. cbn [lattice size temp ini dynamics total_E].
    rewrite grid_get_set_same by assumption.
    replace (-1 * (grid_get (lattice self) p1 * -1)) with (grid_get (lattice self) p1) by lia.
    rewrite grid_set_restore.
    destruct self; reflexivity. }
  rewrite Hself2.
  cbv beta. fold dE. rewrite Hm.
  destruct (Rle_dec _ _); reflexivity.
Qed.

Lemma kawasaki_equal (self : IsingModel) (g : rng) :
  0 < fst (size self) -> 0 < snd (size self) ->
  grid_get (lattice self) (drawn_site self g)
  = grid_get (lattice self) (drawn_site self (advance 2 g)) ->
  kawasaki self g = Ok (self, advance 4 g).
Proof.
  intros Hr Hc E. unfold kawasaki, bind.
  rewrite random_site_ok by assumption.
  rewrite random_site_ok by assumption.
  rewrite advance_advance. simpl Nat.add.
  rewrite E, Z.eqb_refl. reflexivity.
Qed.

(** ** The sum of all spins *)

Lemma sum_list_app {A : Type} (f : A -> Z) (l1 l2 : list A) :
  sum_list f (l1 ++ l2) = sum_list f l1 + sum_list f l2.
Proof. induction l1 as [| x t IH]; simpl; lia. Qed.

Lemma sum_list_list_set {A : Type} (f : A -> Z) (l : list A) (k : nat) (v d : A) :
  (k < length l)%nat ->
  sum_list f (list_set l k v) = sum_list f l - f (nth k l d) + f v.
Proof.
  revert k. induction l as [| x t IH]; intros [| k] H; simpl in *; try lia.
  rewrite (IH k) by lia. lia.
Qed.

Lemma np_sum_rows (g : grid) :
  np_sum g = sum_list (sum_list (fun x => x)) g.
Proof.
  unfold np_sum.
  assert (H : forall l a, fold_left Z.add l a = a + sum_list (fun x => x) l).
  { induction l as [| x t IH]; intros a; simpl; [lia |]. rewrite IH. lia. }
  rewrite H. simpl. clear H.
  induction g as [| row t IH]; simpl.
  - reflexivity.
  - rewrite sum_list_app, IH. reflexivity.
Qed.

Lemma np_sum_grid_set (g : grid) (p : Z * Z) (v : Z) :
  (Z.to_nat (fst p) < length g)%nat ->
  (Z.to_nat (snd p) < length (nth (Z.to_nat (fst p)) g []))%nat ->
  np_sum (grid_set g p v) = np_sum g - grid_get g p + v.
Proof.
  intros Hi Hj. rewrite !np_sum_rows. unfold grid_set, grid_get.
  rewrite (sum_list_list_set _ g _ _ []) by exact Hi.
  rewrite (sum_list_list_set _ (nth _ g []) _ _ 0) by exact Hj.
  lia.
Qed.

Lemma spin_at_site (self : IsingModel) (p : Z * Z) :
  shape_ok self -> spins_ok self -> in_grid self p ->
  grid_get (lattice self) p = 1 \/ grid_get (lattice self) p = -1.
Proof.
  intros Hshape Hspins Hin.
  destruct (shape_row self p Hshape Hin) as [Hi Hj].
  unfold spins_ok in Hspins. rewrite Forall_forall in Hspins.
  specialize (Hspins _ (nth_In _ [] Hi)).
  rewrite Forall_forall in Hspins.
  apply Hspins. unfold grid_get. apply nth_In. exact Hj.
Qed.

Lemma spins_ok_grid_set (self : IsingModel) (p : Z * Z) (v : Z) :
  spins_ok self -> v = 1 \/ v = -1 ->
  spins_ok (set_lattice self (grid_set (lattice self) p v)).
Proof.
  intros Hspins Hv. unfold spins_ok, grid_set in *; simpl.
  destruct (Nat.lt_ge_cases (Z.to_nat (fst p)) (length (lattice self))) as [Hin | Hout].
  - apply Forall_list_set; [exact Hspins |].
    apply Forall_list_set; [| exact Hv].
    rewrite Forall_forall in Hspins. apply Hspins. apply nth_In. exact Hin.
  - rewrite list_set_overflow by exact Hout. exact Hspins.
Qed.

(** ** What a flip preserves *)

Lemma flip_size (self : IsingModel) (p : Z * Z) : size (flip self p) = size self.
Proof. reflexivity. Qed.

Lemma flip_shape_ok (self : IsingModel) (p : Z * Z) :
  shape_ok self -> shape_ok (flip self p).
Proof. intros H. unfold flip. apply shape_ok_grid_set. exact H. Qed.

Lemma flip_spins_ok (self : IsingModel) (p : Z * Z) :
  shape_ok self -> spins_ok self -> in_grid self p -> spins_ok (flip self p).
Proof.
  intros Hshape Hspins Hin. unfold flip. apply spins_ok_grid_set; [exact Hspins |].
  destruct (spin_at_site self p Hshape Hspins Hin) as [-> | ->]; lia.
Qed.

Lemma flip_np_sum (self : IsingModel) (p : Z * Z) :
  shape_ok self -> in_grid self p ->
  np_sum (lattice (flip self p))
  = np_sum (lattice self) - 2 * grid_get (lattice self) p.
Proof.
  intros Hshape Hin. destruct (shape_row self p Hshape Hin) as [Hi Hj].
  unfold flip. cbn [lattice set_lattice].
  rewrite np_sum_grid_set by assumption. lia.
Qed.

Lemma flip_sum_unit_E (self : IsingModel) (p : Z * Z) :
  shape_ok self -> 2 <= fst (size self) -> 2 <= snd (size self) ->
  in_grid self p ->
  sum_unit_E (flip self p) = sum_unit_E self + 2 * get_dE self p.
Proof.
  intros Hshape Hr Hc Hin. rewrite flip_as_set.
  apply sum_unit_E_flip; auto.
Qed.

Lemma flip_other_site (self : IsingModel) (p q : Z * Z) :
  in_grid self p -> in_grid self q -> p <> q ->
  grid_get (lattice (flip self p)) q = grid_get (lattice self) q.
Proof.
  intros [Hp1 Hp2] [Hq1 Hq2] Hne. unfold flip. cbn [lattice set_lattice].
  apply grid_get_set_other; try lia. exact Hne.
Qed.

(** ** Invariants of single moves *)

Lemma energy_ok_after_flip (self : IsingModel) (p : Z * Z) :
  shape_ok self -> 2 <= fst (size self) -> 2 <= snd (size self) ->
  in_grid self p -> energy_ok self ->
  energy_ok (set_total_E (flip self p) (total_E self + IZR (get_dE self p))%R).
Proof.
  intros Hshape Hr Hc Hin He. unfold energy_ok in *.
  unfold get_total_E.
  change (sum_unit_E (set_total_E (flip self p) _)) with (sum_unit_E (flip self p)).
  rewrite flip_sum_unit_E by assumption.
  cbn [total_E set_total_E]. rewrite He. unfold get_total_E.
  rewrite plus_IZR, mult_IZR. lra.
Qed.

Lemma glauber_preserves (self : IsingModel) (g : rng) :
  shape_ok self -> 0 < fst (size self) -> 0 < snd (size self) ->
  exists self' g',
    glauber self g = Ok (self', g') /\
    size self' = size self /\ shape_ok self' /\
    (spins_ok self -> spins_ok self') /\
    (2 <= fst (size self) -> 2 <= snd (size self) -> energy_ok self -> energy_ok self').
Proof.
  intros Hshape Hr Hc.
  destruct (glauber_run self g Hr Hc) as (b & g' & _ & Hrun).
  assert (Hin : in_grid self (drawn_site self g)) by (apply drawn_site_in_grid; assumption).
  rewrite Hrun. destruct b.
  - eexists; eexists. split; [reflexivity |].
    split; [reflexivity |].
    split; [apply shape_ok_set_total_E, flip_shape_ok; exact Hshape |].
    split.
    + intros Hspins. apply (flip_spins_ok self _ Hshape Hspins Hin).
    + intros H2r H2c He. apply energy_ok_after_flip; assumption.
  - exists self, g'.
    split; [reflexivity |]. split; [reflexivity |]. split; [exact Hshape |].
    split; auto.
Qed.

Lemma kawasaki_preserves (self : IsingModel) (g : rng) :
  shape_ok self -> 0 < fst (size self) -> 0 < snd (size self) ->
  exists self' g',
    kawasaki self g = Ok (self', g') /\
    size self' = size self /\ shape_ok self' /\
    (spins_ok self -> spins_ok self' /\ np_sum (lattice self') = np_sum (lattice self)) /\
    (2 <= fst (size self) -> 2 <= snd (size self) -> energy_ok self -> energy_ok self').
Proof.
  intros Hshape Hr Hc.
  set (p1 := drawn_site self g). set (p2 := drawn_site self (advance 2 g)).
  assert (Hin1 : in_grid self p1) by (apply drawn_site_in_grid; assumption).
  assert (Hin2 : in_grid self p2) by (apply drawn_site_in_grid; assumption).
  destruct (Z.eq_dec (grid_get (lattice self) p1) (grid_get (lattice self) p2))
    as [E | Hne].
  - exists self, (advance 4 g).
    split; [apply kawasaki_equal; assumption |].
    split; [reflexivity |]. split; [exact Hshape |]. split; auto.
  - destruct (kawasaki_run self g Hshape Hr Hc Hne) as (b & g' & _ & Hrun).
    fold p1 p2 in Hrun. rewrite Hrun. destruct b.
    + assert (Hp12 : p1 <> p2) by (intros E; apply Hne; rewrite E; reflexivity).
      assert (Hshape1 : shape_ok (flip self p1)) by (apply flip_shape_ok; exact Hshape).
      assert (Hin2' : in_grid (flip self p1) p2) by exact Hin2.
      eexists; eexists. split; [reflexivity |].
      split; [reflexivity |].
      split; [apply shape_ok_set_total_E, flip_shape_ok; exact Hshape1 |].
      split.
      * intros Hspins.
        assert (Hspins1 : spins_ok (flip self p1))
          by (apply flip_spins_ok; assumption).
        split; [apply (flip_spins_ok _ _ Hshape1 Hspins1 Hin2') |].
        cbn [lattice set_total_E].
        rewrite flip_np_sum by assumption.
        rewrite flip_np_sum by assumption.
        rewrite flip_other_site by assumption.
        destruct (spin_at_site self p1 Hshape Hspins Hin1) as [E1 | E1],
                 (spin_at_site self p2 Hshape Hspins Hin2) as [E2 | E2];
          rewrite E1, E2 in *; lia.
      * intros H2r H2c He. unfold energy_ok in *. unfold get_total_E.
        change (sum_unit_E (set_total_E (flip (flip self p1) p2) _))
          with (sum_unit_E (flip (flip self p1) p2)).
        rewrite (flip_sum_unit_E (flip self p1) p2) by assumption.
        rewrite (flip_sum_unit_E self p1) by assumption.
        cbn [total_E set_total_E]. rewrite He. unfold get_total_E.
        rewrite !plus_IZR, !mult_IZR. lra.
    + exists self, g'.
      split; [reflexivity |]. split; [reflexivity |]. split; [exact Hshape |].
      split; auto.
Qed.

(** ** Runs of moves *)

Lemma step_preserves (m : move) (self : IsingModel) (g : rng) :
  shape_ok self -> 0 < fst (size self) -> 0 < snd (size self) ->
  exists self' g',
    step m self g = Ok (self', g') /\
    size self' = size self /\ shape_ok self' /\
    (2 <= fst (size self) -> 2 <= snd (size self) -> energy_ok self -> energy_ok self').
Proof.
  intros Hshape Hr Hc. destruct m; simpl.
  - destruct (glauber_preserves self g Hshape Hr Hc)
      as (self' & g' & Hrun & Hsize & Hshape' & _ & He).
    exists self', g'. auto.
  - destruct (kawasaki_preserves self g Hshape Hr Hc)
      as (self' & g' & Hrun & Hsize & Hshape' & _ & He).
    exists self', g'. auto.
Qed.

Lemma run_moves_preserves (ms : list move) (self : IsingModel) (g : rng) :
  shape_ok self -> 2 <= fst (size self) -> 2 <= snd (size self) ->
  energy_ok self ->
  exists self' g',
    run_moves ms self g = Ok (self', g') /\
    size self' = size self /\ shape_ok self' /\ energy_ok self'.
Proof.
  revert self g. induction ms as [| m ms IH]; intros self g Hshape Hr Hc He.
  - exists self, g. repeat split; auto; apply Hshape.
  - destruct (step_preserves m self g Hshape ltac:(lia) ltac:(lia))
      as (self1 & g1 & Hstep & Hsize1 & Hshape1 & He1).
    specialize (He1 Hr Hc He).
    destruct (IH self1 g1 Hshape1 ltac:(rewrite Hsize1; exact Hr)
                ltac:(rewrite Hsize1; exact Hc) He1)
      as (self' & g' & Hrun & Hsize & Hshape' & He').
    exists self', g'. split.
    + unfold run_moves in *. simpl. unfold bind. rewrite Hstep. exact Hrun.
    + rewrite Hsize, Hsize1. auto.
Qed.

Lemma trace_kawasaki (k : nat) (self : IsingModel) (g : rng) :
  shape_ok self -> spins_ok self -> 0 < fst (size self) -> 0 < snd (size self) ->
  exists states g',
    trace kawasaki k self g = Ok (states, g') /\
    length states = k /\
    Forall (fun st => np_sum (lattice st) = np_sum (lattice self)) states.
Proof.
  revert self g. induction k as [| k IH]; intros self g Hshape Hspins Hr Hc.
  - exists [], g. repeat split; auto.
  - destruct (kawasaki_preserves self g Hshape Hr Hc)
      as (self1 & g1 & Hstep & Hsize1 & Hshape1 & Hs1 & _).
    destruct (Hs1 Hspins) as [Hspins1 Hsum1].
    destruct (IH self1 g1 Hshape1 Hspins1 ltac:(rewrite Hsize1; exact Hr)
                ltac:(rewrite Hsize1; exact Hc))
      as (states & g' & Hrun & Hlen & Hall).
    exists (self1 :: states), g'. split; [| split].
    + simpl. unfold bind. rewrite Hstep, Hrun. reflexivity.
    + simpl. rewrite Hlen. reflexivity.
    + constructor; [exact Hsum1 |].
      rewrite Forall_forall in *. intros st Hst. rewrite (Hall st Hst). exact Hsum1.
Qed.

(** ** The examples *)

Lemma up_2x2_shape : shape_ok up_2x2.
Proof.
  unfold shape_ok, up_2x2, with_fresh_energy; simpl.
  repeat split; try lia. repeat constructor.
Qed.

Lemma up_2x2_spins : spins_ok up_2x2.
Proof.
  unfold spins_ok, up_2x2, with_fresh_energy; simpl.
  repeat constructor; left; reflexivity.
Qed.

Lemma up_2x2_energy : total_E up_2x2 = get_total_E up_2x2.
Proof. reflexivity. Qed.

Lemma uniform_zero_rng (k : nat) : uniform (advance k zero_rng) = 0%R.
Proof.
  unfold uniform, zero_rng, advance; simpl tape.
  rewrite Z.mod_0_l by lia. unfold Rdiv. apply Rmult_0_l.
Qed.

Lemma metropolis_zero_rng (self : IsingModel) (dE : Z) (k : nat) :
  exists g', metropolis self dE (advance k zero_rng) = Ok (Some true, g').
Proof.
  destruct (metropolis_accept_prob self dE (advance k zero_rng)) as [g' Hm].
  exists g'. rewrite Hm. rewrite uniform_zero_rng.
  destruct (Rle_dec 0 (accept_prob self dE)) as [_ | Hn]; [reflexivity |].
  exfalso. apply Hn. pose proof (accept_prob_bounds self dE). lra.
Qed.

(** ** The bootstrap resampling loop *)

Lemma py_index_ok {A : Type} (xs : list A) (r : Z) (d : A) (g : rng) :
  0 <= r < Z.of_nat (length xs) ->
  py_index xs r g = Ok (nth (Z.to_nat r) xs d, g).
Proof.
  intros H. unfold py_index. cbv zeta.
  assert (E : (r <? 0) = false) by (apply Z.ltb_ge; lia).
  rewrite !E.
  rewrite (nth_error_nth' xs d) by lia. reflexivity.
Qed.

Lemma range_pos (m : Z) : 1 <= m -> exists t, range m = 0 :: t.
Proof.
  intros H. unfold range.
  destruct (Z.to_nat m) as [| k] eqn:E; [lia |].
  simpl. eexists. reflexivity.
Qed.

Lemma resample_loop (xs : list R) (l : list Z) (acc : list R) (g : rng) :
  (2 <= length xs)%nat ->
  for_each l
    (fun _ sampling_data =>
       r <- randint 0 (Z.of_nat (length xs) - 1) ;;
       x <- py_index xs r ;;
       ret (sampling_data ++ [x]))
    acc g
  = Ok (acc ++ map (fun k => nth (Z.to_nat (tape g (pos g + k)%nat
                                            mod (Z.of_nat (length xs) - 1))) xs 0%R)
                   (seq 0 (length l)),
        advance (length l) g).
Proof.
  intros Hlen. revert acc g. induction l as [| a t IH]; intros acc g.
  - simpl. unfold ret. rewrite app_nil_r. f_equal. f_equal.
    unfold advance. destruct g; simpl. f_equal. lia.
  - cbn [for_each]. unfold bind at 1.
    unfold bind at 1. rewrite randint_ok by lia.
    cbv beta iota.
    unfold bind at 1.
    rewrite Z.add_0_l, Z.sub_0_r.
    pose proof (Z.mod_pos_bound (tape g (pos g)) (Z.of_nat (length xs) - 1)
                  ltac:(lia)) as Hb.
    rewrite (py_index_ok xs _ 0%R) by lia.
    unfold ret at 1.
    rewrite IH. f_equal. f_equal.
    + rewrite <- app_assoc. f_equal. cbn [length seq map app].
      rewrite Nat.add_0_r. f_equal.
      rewrite <- seq_shift, map_map.
      apply map_ext. intros k. cbn [advance tape pos].
      replace (pos g + 1 + k)%nat with (pos g + S k)%nat by lia. reflexivity.
    + rewrite advance_advance. reflexivity.
Qed.

Lemma resample_ok (xs : list R) (g : rng) :
  (2 <= length xs)%nat ->
  resample xs g
  = Ok (map (fun r => nth (Z.to_nat r) xs 0%R) (resample_indices (length xs) g),
        advance (length xs) g).
Proof.
  intros Hlen. unfold resample. rewrite resample_loop by exact Hlen.
  rewrite length_range, Nat2Z.id. cbn [app].
  unfold resample_indices. rewrite map_map. reflexivity.
Qed.

Lemma resample_indices_range (len : nat) (g : rng) :
  (2 <= len)%nat ->
  Forall (fun r => 0 <= r < Z.of_nat len - 1) (resample_indices len g).
Proof.
  intros Hlen. unfold resample_indices. rewrite Forall_forall.
  intros r Hr. apply in_map_iff in Hr. destruct Hr as (k & <- & _).
  apply Z.mod_pos_bound. lia.
Qed.

Lemma resample_single (x : R) (g : rng) : resample [x] g = Raise ValueError.
Proof. reflexivity. Qed.

(** ** The driver's sweeps *)

Lemma sample_due_ok (p : params) (j : Z) (g : rng) :
  n p <> 0 -> sample_due p j g = Ok (is_due p j, g).
Proof.
  intros Hn. unfold sample_due, is_due.
  destruct (j + 1 >=? eqm_sweeps p); [| reflexivity].
  destruct (Z.eqb_spec (n p) 0) as [E | _]; [contradiction | reflexivity].
Qed.

Lemma trace_total (mv : IsingModel -> M IsingModel) :
  (forall self g,
      shape_ok self -> 0 < fst (size self) -> 0 < snd (size self) ->
      exists self' g',
        mv self g = Ok (self', g') /\ size self' = size self /\ shape_ok self') ->
  forall k self g,
    shape_ok self -> 0 < fst (size self) -> 0 < snd (size self) ->
    exists states g',
      trace mv k self g = Ok (states, g') /\ length states = k /\
      Forall (fun st => size st = size self /\ shape_ok st) states.
Proof.
  intros Hmv. induction k as [| k IH]; intros self g Hshape Hr Hc.
  - exists [], g. split; [reflexivity |]. split; [reflexivity | constructor].
  - destruct (Hmv self g Hshape Hr Hc) as (self1 & g1 & Hstep & Hsize & Hshape1).
    destruct (IH self1 g1 Hshape1 ltac:(rewrite Hsize; exact Hr)
                ltac:(rewrite Hsize; exact Hc))
      as (states & g' & Hrun & Hlen & Hall).
    exists (self1 :: states), g'. split; [| split].
    + simpl. unfold bind. rewrite Hstep, Hrun. reflexivity.
    + simpl. rewrite Hlen. reflexivity.
    + constructor; [split; assumption |].
      rewrite Forall_forall in *. intros st Hst.
      destruct (Hall st Hst) as [E S0]. split; [congruence | exact S0].
Qed.

Lemma trace_glauber_total (k : nat) (self : IsingModel) (g : rng) :
  shape_ok self -> 0 < fst (size self) -> 0 < snd (size self) ->
  exists states g',
    trace glauber k self g = Ok (states, g') /\ length states = k /\
    Forall (fun st => size st = size self /\ shape_ok st) states.
Proof.
  apply trace_total. intros s g0 Hs Hr Hc.
  destruct (glauber_preserves s g0 Hs Hr Hc) as (s' & g' & H1 & H2 & H3 & _).
  exists s', g'. auto.
Qed.

Lemma trace_kawasaki_total (k : nat) (self : IsingModel) (g : rng) :
  shape_ok self -> 0 < fst (size self) -> 0 < snd (size self) ->
  exists states g',
    trace kawasaki k self g = Ok (states, g') /\ length states = k /\
    Forall (fun st => size st = size self /\ shape_ok st) states.
Proof.
  apply trace_total. intros s g0 Hs Hr Hc.
  destruct (kawasaki_preserves s g0 Hs Hr Hc) as (s' & g' & H1 & H2 & H3 & _).
  exists s', g'. auto.
Qed.

Lemma last_Forall {A : Type} (P : A -> Prop) (l : list A) (d : A) :
  Forall P l -> P d -> P (last l d).
Proof.
  intros Hl. revert d. induction Hl as [| x t Hx Ht IH]; intros d Hd.
  - exact Hd.
  - destruct t as [| y t']; [exact Hx |].
    change (P (last (y :: t') d)). apply IH. exact Hd.
Qed.

Lemma trace_succ_inv (mv : IsingModel -> M IsingModel) (k : nat)
      (self : IsingModel) (g g' : rng) (states : list IsingModel) :
  trace mv (S k) self g = Ok (states, g') ->
  exists self1 g1 rest,
    mv self g = Ok (self1, g1) /\
    trace mv k self1 g1 = Ok (rest, g') /\
    states = self1 :: rest.
Proof.
  simpl. unfold bind. intros H.
  destruct (mv self g) as [[self1 g1] | e] eqn:E1; [| discriminate].
  destruct (trace mv k self1 g1) as [[rest g2] | e] eqn:E2; [| discriminate].
  injection H as <- <-. exists self1, g1, rest.
  split; [reflexivity |]. split; [exact E2 | reflexivity].
Qed.

Lemma last_default {A : Type} (x : A) (r : list A) (d d' : A) :
  last (x :: r) d = last (x :: r) d'.
Proof.
  revert x. induction r as [| y r IH]; intros x; [reflexivity |].
  change (last (y :: r) d = last (y :: r) d'). apply IH.
Qed.

Lemma last_cons {A : Type} (a : A) (rest : list A) (d : A) :
  last (a :: rest) d = last rest a.
Proof.
  destruct rest as [| x r]; [reflexivity |].
  change (last (x :: r) d = last (x :: r) a). apply last_default.
Qed.

(** The inner loop of a sweep appends one sample per update step. *)
Lemma glauber_sweep_loop (p : params) (j : Z) (l : list Z) :
  n p <> 0 ->
  forall (self : IsingModel) (es : list R) (ms : list Z) (g g' : rng)
         (states : list IsingModel),
    trace glauber (length l) self g = Ok (states, g') ->
    for_each l
      (fun _ '(l0, energy_per_temp, mag_per_temp) =>
         l' <- glauber l0 ;;
         due <- sample_due p j ;;
         if due
         then ret (l', energy_per_temp ++ [total_E l'], mag_per_temp ++ [get_abs_M l'])
         else ret (l', energy_per_temp, mag_per_temp))
      (self, es, ms) g
    = Ok ((last states self,
           es ++ (if is_due p j then map total_E states else []),
           ms ++ (if is_due p j then map get_abs_M states else [])), g').
Proof.
  intros Hn. induction l as [| a t IH]; intros self es ms g g' states Htr.
  - simpl in Htr. injection Htr as <- <-. simpl.
    destruct (is_due p j); rewrite !app_nil_r; reflexivity.
  - cbn [length] in Htr.
    destruct (trace_succ_inv _ _ _ _ _ _ Htr) as (self1 & g1 & rest & Hstep & Hrest & ->).
    cbn [for_each]. unfold bind at 1. unfold bind at 1.
    rewrite Hstep. unfold bind at 1. rewrite (sample_due_ok p j g1 Hn).
    rewrite last_cons.
    destruct (is_due p j) eqn:Hdue.
    + unfold ret at 1. rewrite (IH _ _ _ _ _ _ Hrest).
      cbn [map]. rewrite <- !app_assoc. reflexivity.
    + unfold ret at 1. rewrite (IH _ _ _ _ _ _ Hrest). reflexivity.
Qed.

Lemma kawasaki_sweep_loop (p : params) (j : Z) (l : list Z) :
  n p <> 0 ->
  forall (self : IsingModel) (es : list R) (ms : list Z) (g g' : rng)
         (states : list IsingModel),
    trace kawasaki (length l) self g = Ok (states, g') ->
    for_each l
      (fun _ '(l0, energy_per_temp, mag_per_temp) =>
         l' <- kawasaki l0 ;;
         due <- sample_due p j ;;
         if due
         then ret (l', energy_per_temp ++ [total_E l'], mag_per_temp)
         else ret (l', energy_per_temp, mag_per_temp))
      (self, es, ms) g
    = Ok ((last states self,
           es ++ (if is_due p j then map total_E states else []),
           ms), g').
Proof.
  intros Hn. induction l as [| a t IH]; intros self es ms g g' states Htr.
  - simpl in Htr. injection Htr as <- <-. simpl.
    destruct (is_due p j); rewrite !app_nil_r; reflexivity.
  - cbn [length] in Htr.
    destruct (trace_succ_inv _ _ _ _ _ _ Htr) as (self1 & g1 & rest & Hstep & Hrest & ->).
    cbn [for_each]. unfold bind at 1. unfold bind at 1.
    rewrite Hstep. unfold bind at 1. rewrite (sample_due_ok p j g1 Hn).
    rewrite last_cons.
    destruct (is_due p j) eqn:Hdue.
    + unfold ret at 1. rewrite (IH _ _ _ _ _ _ Hrest).
      cbn [map]. rewrite <- !app_assoc. reflexivity.
    + unfold ret at 1. rewrite (IH _ _ _ _ _ _ Hrest). reflexivity.
Qed.

(** The moves of one sweep always run to completion and keep the shape
    of the lattice. *)
Lemma sweep_trace_total (mv : IsingModel -> M IsingModel) (sz : Z * Z)
      (self : IsingModel) (g : rng) :
  (forall k s g0,
      shape_ok s -> 0 < fst (size s) -> 0 < snd (size s) ->
      exists states g',
        trace mv k s g0 = Ok (states, g') /\ length states = k /\
        Forall (fun st => size st = size s /\ shape_ok st) states) ->
  shape_ok self -> size self = sz ->
  exists states g',
    trace mv (Z.to_nat (fst sz * snd sz)) self g = Ok (states, g') /\
    length states = Z.to_nat (fst sz * snd sz) /\
    size (last states self) = sz /\ shape_ok (last states self).
Proof.
  intros Htot Hshape Hsize.
  destruct (Z_le_gt_dec (fst sz * snd sz) 0) as [Hz | Hpos].
  - replace (Z.to_nat (fst sz * snd sz)) with 0%nat by lia.
    exists [], g. split; [reflexivity |]. split; [reflexivity |].
    split; assumption.
  - pose proof Hshape as (Hr & Hc & _). rewrite Hsize in Hr, Hc.
    destruct (Htot (Z.to_nat (fst sz * snd sz)) self g Hshape
                ltac:(rewrite Hsize; nia) ltac:(rewrite Hsize; nia))
      as (states & g' & Htr & Hlen & Hall).
    exists states, g'. split; [exact Htr |]. split; [exact Hlen |].
    rewrite Hsize in Hall.
    apply (last_Forall (fun st => size st = sz /\ shape_ok st));
      [exact Hall | split; assumption].
Qed.

(** ** Construction in the uniform-up configuration *)

Lemma init_u (sz : Z * Z) (t : R) (d : string) (g : rng) :
  0 <= fst sz -> 0 <= snd sz ->
  init sz t "u" d g
  = Ok (Some (with_fresh_energy sz t "u" d
                (repeat (repeat 1 (Z.to_nat (snd sz))) (Z.to_nat (fst sz)))), g).
Proof.
  intros Hr Hc. unfold init, build_lattice, np_ones, check_shape.
  cbn [String.eqb Ascii.eqb Bool.eqb].
  assert (E1 : (fst sz <? 0) = false) by (apply Z.ltb_ge; exact Hr).
  assert (E2 : (snd sz <? 0) = false) by (apply Z.ltb_ge; exact Hc).
  unfold bind, ret. rewrite E1, E2. reflexivity.
Qed.

Lemma up_lattice_shape (sz : Z * Z) (t : R) (i d : string) :
  0 <= fst sz -> 0 <= snd sz ->
  shape_ok (with_fresh_energy sz t i d
              (repeat (repeat 1 (Z.to_nat (snd sz))) (Z.to_nat (fst sz)))).
Proof.
  intros Hr Hc. unfold shape_ok, with_fresh_energy; simpl.
  split; [exact Hr |]. split; [exact Hc |].
  split; [apply repeat_length |].
  apply Forall_forall. intros row Hrow.
  apply repeat_spec in Hrow. subst row. apply repeat_length.
Qed.

Lemma for_each_idle {A S : Type} (l : list A) (body : A -> S -> M S) (s : S) (g : rng) :
  (forall a, In a l -> body a s g = Ok (s, g)) ->
  for_each l body s g = Ok (s, g).
Proof.
  induction l as [| a t IH]; intros H; simpl.
  - reflexivity.
  - unfold bind. rewrite (H a) by (left; reflexivity).
    apply IH. intros b Hb. apply H. right. exact Hb.
Qed.

(** With an unknown dynamics name neither branch of the dispatch is
    taken: the temperature point builds its lattice and does nothing. *)
Lemma temperature_point_unknown (p : params) (temp_range : list R) (i : Z)
      (d : driver) (g : rng) :
  dynamics_name p <> "glauber"%string -> dynamics_name p <> "kawasaki"%string ->
  0 <= fst (lattice_size p) -> 0 <= snd (lattice_size p) ->
  0 <= i < Z.of_nat (length temp_range) ->
  temperature_point p temp_range i d g = Ok (d, g).
Proof.
  intros Hg Hk Hr Hc Hi. unfold temperature_point, bind.
  rewrite (py_index_ok temp_range i 0%R) by exact Hi.
  rewrite init_u by assumption.
  cbn [dynamics with_fresh_energy set_total_E].
  apply String.eqb_neq in Hg. apply String.eqb_neq in Hk.
  rewrite Hg, Hk. reflexivity.
Qed.

Lemma main_unknown (p : params) (temp_range : list R) (g : rng) :
  dynamics_name p <> "glauber"%string -> dynamics_name p <> "kawasaki"%string ->
  0 <= fst (lattice_size p) -> 0 <= snd (lattice_size p) ->
  main p temp_range g = Ok (empty_driver, g).
Proof.
  intros Hg Hk Hr Hc. unfold main. apply for_each_idle.
  intros i Hi. apply in_range in Hi.
  apply temperature_point_unknown; assumption.
Qed.

Lemma up_lattice_spins (sz : Z * Z) (t : R) (i d : string) :
  spins_ok (with_fresh_energy sz t i d
              (repeat (repeat 1 (Z.to_nat (snd sz))) (Z.to_nat (fst sz)))).
Proof.
  unfold spins_ok, with_fresh_energy; simpl.
  apply Forall_forall. intros row Hrow. apply repeat_spec in Hrow. subst row.
  apply Forall_forall. intros s Hs. apply repeat_spec in Hs. left. exact Hs.
Qed.

(** ** Construction in the random configuration *)

Lemma replicateM_spec {A : Type} (P : A -> Prop) (c : M A) (k : nat) (g : rng) :
  (forall g0, exists a g1, c g0 = Ok (a, g1) /\ P a) ->
  exists l g', replicateM k c g = Ok (l, g') /\ length l = k /\ Forall P l.
Proof.
  intros Hc. revert g. induction k as [| k IH]; intros g.
  - exists [], g. split; [reflexivity |]. split; [reflexivity | constructor].
  - destruct (Hc g) as (a & g1 & Ha & Pa).
    destruct (IH g1) as (l & g' & Hl & Hlen & Hall).
    exists (a :: l), g'. split; [| split].
    + simpl. unfold bind. rewrite Ha, Hl. reflexivity.
    + simpl. rewrite Hlen. reflexivity.
    + constructor; assumption.
Qed.

Lemma random_spin (g : rng) :
  exists s g',
    (k <- randint 0 (Z.of_nat (length [-1; 1])) ;; ret (nth (Z.to_nat k) [-1; 1] 0)) g
    = Ok (s, g') /\ (s = 1 \/ s = -1).
Proof.
  unfold bind. rewrite randint_ok by (simpl; lia).
  eexists; eexists. split; [reflexivity |].
  pose proof (Z.mod_pos_bound (tape g (pos g)) 2 ltac:(lia)) as Hb.
  change (Z.of_nat (length [-1; 1]) - 0) with 2.
  rewrite Z.add_0_l.
  assert (Hk : tape g (pos g) mod 2 = 0 \/ tape g (pos g) mod 2 = 1) by lia.
  destruct Hk as [-> | ->]; simpl; auto.
Qed.

(** Both configurations the callers use yield a well-shaped lattice of
    spins whose stored energy is the recomputed one. *)
Lemma init_r (sz : Z * Z) (t : R) (d : string) (g : rng) :
  0 <= fst sz -> 0 <= snd sz ->
  exists self g',
    init sz t "r" d g = Ok (Some self, g') /\
    size self = sz /\ shape_ok self /\ spins_ok self /\ energy_ok self.
Proof.
  intros Hr Hc.
  destruct (replicateM_spec
              (fun row => length row = Z.to_nat (snd sz)
                          /\ Forall (fun s => s = 1 \/ s = -1) row)
              (replicateM (Z.to_nat (snd sz))
                 (k <- randint 0 (Z.of_nat (length [-1; 1])) ;;
                  ret (nth (Z.to_nat k) [-1; 1] 0)))
              (Z.to_nat (fst sz)) g)
    as (rows & g' & Hrun & Hlen & Hall).
  { intros g0.
    destruct (replicateM_spec (fun s => s = 1 \/ s = -1)
                (k <- randint 0 (Z.of_nat (length [-1; 1])) ;;
                 ret (nth (Z.to_nat k) [-1; 1] 0))
                (Z.to_nat (snd sz)) g0 random_spin)
      as (row & g1 & Hrow & Hl & Ha).
    exists row, g1. auto. }
  exists (with_fresh_energy sz t "r" d rows), g'.
  split.
  - unfold init, build_lattice, np_random_choice, check_shape.
    cbn [String.eqb Ascii.eqb Bool.eqb].
    assert (E1 : (fst sz <? 0) = false) by (apply Z.ltb_ge; exact Hr).
    assert (E2 : (snd sz <? 0) = false) by (apply Z.ltb_ge; exact Hc).
    unfold bind in Hrun |- *. rewrite E1, E2. cbn [orb]. unfold ret at 1.
    rewrite Hrun. reflexivity.
  - split; [reflexivity |].
    split.
    { unfold shape_ok, with_fresh_energy; simpl.
      split; [exact Hr |]. split; [exact Hc |]. split; [exact Hlen |].
      eapply Forall_impl; [| exact Hall]. intros row [H _]. exact H. }
    split.
    { unfold spins_ok, with_fresh_energy; simpl.
      eapply Forall_impl; [| exact Hall]. intros row [_ H]. exact H. }
    reflexivity.
Qed.

(** ** Samples of a whole temperature point *)

Section SampleCount.

Variable p : params.
Variable sweep : Z -> point -> M point.

Let steps := Z.to_nat (fst (lattice_size p) * snd (lattice_size p)).

Hypothesis sweep_spec :
  forall j self es ms g,
    shape_ok self -> size self = lattice_size p ->
    exists self' new ms' g',
      sweep j (self, es, ms) g = Ok ((self', es ++ new, ms'), g') /\
      size self' = lattice_size p /\ shape_ok self' /\
      length new = if is_due p j then steps else 0%nat.

Lemma sweeps_sample_count (js : list Z) :
  forall self es ms g,
    shape_ok self -> size self = lattice_size p ->
    exists self' new ms' g',
      for_each js sweep (self, es, ms) g = Ok ((self', es ++ new, ms'), g') /\
      length new = (steps * length (filter (is_due p) js))%nat.
Proof.
  induction js as [| j js IH]; intros self es ms g Hshape Hsize.
  - exists self, [], ms, g. split.
    + simpl. rewrite app_nil_r. reflexivity.
    + simpl. lia.
  - destruct (sweep_spec j self es ms g Hshape Hsize)
      as (self1 & new1 & ms1 & g1 & Hsw & Hsz1 & Hsh1 & Hlen1).
    destruct (IH self1 (es ++ new1) ms1 g1 Hsh1 Hsz1)
      as (self' & new & ms' & g' & Hrun & Hlen).
    exists self', (new1 ++ new), ms', g'. split.
    + cbn [for_each]. unfold bind. rewrite Hsw, Hrun.
      rewrite <- app_assoc. reflexivity.
    + rewrite length_app, Hlen1, Hlen. cbn [filter].
      destruct (is_due p j); simpl; lia.
Qed.

End SampleCount.

Lemma glauber_sweep_spec (p : params) :
  n p <> 0 ->
  forall j self es ms g,
    shape_ok self -> size self = lattice_size p ->
    exists self' new ms' g',
      glauber_sweep p j (self, es, ms) g = Ok ((self', es ++ new, ms'), g') /\
      size self' = lattice_size p /\ shape_ok self' /\
      length new
      = if is_due p j
        then Z.to_nat (fst (lattice_size p) * snd (lattice_size p)) else 0%nat.
Proof.
  intros Hn j self es ms g Hshape Hsize.
  destruct (sweep_trace_total glauber (lattice_size p) self g
              trace_glauber_total Hshape Hsize)
    as (states & g' & Htr & Hl & Hsz & Hsh).
  exists (last states self),
         (if is_due p j then map total_E states else []),
         (ms ++ (if is_due p j then map get_abs_M states else [])), g'.
  split; [| split; [exact Hsz | split; [exact Hsh |]]].
  - unfold glauber_sweep. apply glauber_sweep_loop; [exact Hn |].
    rewrite length_range. exact Htr.
  - destruct (is_due p j); [rewrite length_map; exact Hl | reflexivity].
Qed.

Lemma kawasaki_sweep_spec (p : params) :
  n p <> 0 ->
  forall j self es ms g,
    shape_ok self -> size self = lattice_size p ->
    exists self' new ms' g',
      kawasaki_sweep p j (self, es, ms) g = Ok ((self', es ++ new, ms'), g') /\
      size self' = lattice_size p /\ shape_ok self' /\
      length new
      = if is_due p j
        then Z.to_nat (fst (lattice_size p) * snd (lattice_size p)) else 0%nat.
Proof.
  intros Hn j self es ms g Hshape Hsize.
  destruct (sweep_trace_total kawasaki (lattice_size p) self g
              trace_kawasaki_total Hshape Hsize)
    as (states & g' & Htr & Hl & Hsz & Hsh).
  exists (last states self),
         (if is_due p j then map total_E states else []), ms, g'.
  split; [| split; [exact Hsz | split; [exact Hsh |]]].
  - unfold kawasaki_sweep. apply kawasaki_sweep_loop; [exact Hn |].
    rewrite length_range. exact Htr.
  - destruct (is_due p j); [rewrite length_map; exact Hl | reflexivity].
Qed.

(** Over the whole temperature point the energy samples number
    [rows * cols] times the count of qualifying sweeps. *)
Lemma temperature_point_sample_count (p : params) (self : IsingModel) (g : rng) :
  n p <> 0 -> shape_ok self -> size self = lattice_size p ->
  let steps := Z.to_nat (fst (lattice_size p) * snd (lattice_size p)) in
  let qualifying := length (filter (is_due p) (range (sweeps p))) in
  (exists self' es ms g',
      for_each (range (sweeps p)) (glauber_sweep p) (self, [], []) g
      = Ok ((self', es, ms), g') /\ length es = (steps * qualifying)%nat) /\
  (exists self' es ms g',
      for_each (range (sweeps p)) (kawasaki_sweep p) (self, [], []) g
      = Ok ((self', es, ms), g') /\ length es = (steps * qualifying)%nat).
Proof.
  intros Hn Hshape Hsize steps qualifying. split.
  - destruct (sweeps_sample_count p (glauber_sweep p) (glauber_sweep_spec p Hn)
                (range (sweeps p)) self [] [] g Hshape Hsize)
      as (self' & new & ms' & g' & Hrun & Hlen).
    exists self', new, ms', g'. split; assumption.
  - destruct (sweeps_sample_count p (kawasaki_sweep p) (kawasaki_sweep_spec p Hn)
                (range (sweeps p)) self [] [] g Hshape Hsize)
      as (self' & new & ms' & g' & Hrun & Hlen).
    exists self', new, ms', g'. split; assumption.
Qed.

(** ** Draws are multiples of 2^-53 *)





(** * The specification, claim by claim *)

(** C9.  A 2 x 2 lattice built in the uniform-up configuration holds four
    spins +1 and has [total_E] equal to -8 right after construction,
    whatever the temperature, the dynamics name and the generator state;
    construction draws no random number. *)
Theorem up_2x2_total_E (t : R) (d : string) (g : rng) :
  exists self,
    init (2, 2) t "u" d g = Ok (Some self, g) /\
    lattice self = [[1; 1]; [1; 1]] /\
    total_E self = (-8)%R.
Proof.
  eexists. split; [reflexivity |]. split; [reflexivity |].
  cbn [total_E with_fresh_energy set_total_E]. unfold get_total_E.
  replace (sum_unit_E _) with (-16) by reflexivity.
  lra.
Qed.

(** C4.  At a positive temperature, [metropolis dE] returns true without
    drawing when [dE < 0]; when [dE >= 0] it consumes exactly one draw [r]
    of [[0, 1)] and returns true if [r <= min(1, exp(-dE / temperature))]
    and false otherwise. *)
Theorem metropolis_rule (self : IsingModel) (dE : Z) (g : rng) :
  (0 < temp self)%R ->
  (dE < 0 -> metropolis self dE g = Ok (Some true, g)) /\
  (0 <= dE ->
   let r := uniform g in
   random g = Ok (r, advance 1 g) /\ (0 <= r < 1)%R /\
   exists b : bool,
     metropolis self dE g = Ok (Some b, advance 1 g) /\
     (b = true <-> (r <= Rmin 1 (exp (- IZR dE / temp self)))%R) /\
     (b = false <-> ~ (r <= Rmin 1 (exp (- IZR dE / temp self)))%R)).
Proof.
  intros _. split.
  - apply metropolis_neg.
  - intros HdE r. split; [apply random_ok |]. split; [apply uniform_range |].
    rewrite (metropolis_nonneg self dE g HdE). rewrite opp_IZR. fold r.
    destruct (Rle_dec r (Rmin 1 (exp (- IZR dE / temp self)))) as [Hle | Hnle].
    + exists true. split; [reflexivity |]. split; split; intros H.
      * exact Hle.
      * reflexivity.
      * discriminate H.
      * contradiction.
    + exists false. split; [reflexivity |]. split; split; intros H.
      * discriminate H.
      * contradiction.
      * exact Hnle.
      * reflexivity.
Qed.

(** The rule at [dE = 8] on the 2 x 2 lattice at temperature 1. *)
Lemma metropolis_rule_witness :
  (0 < temp up_2x2)%R /\
  (0 <= 8 ->
   let r := uniform zero_rng in
   random zero_rng = Ok (r, advance 1 zero_rng) /\ (0 <= r < 1)%R /\
   exists b : bool,
     metropolis up_2x2 8 zero_rng = Ok (Some b, advance 1 zero_rng) /\
     (b = true <-> (r <= Rmin 1 (exp (- IZR 8 / temp up_2x2)))%R) /\
     (b = false <-> ~ (r <= Rmin 1 (exp (- IZR 8 / temp up_2x2)))%R)).
Proof.
  assert (Ht : (0 < temp up_2x2)%R) by (simpl; lra).
  split; [exact Ht |].
  exact (proj2 (metropolis_rule up_2x2 8 zero_rng Ht)).
Defined.




(** C6.  On a lattice with at least one site, when the two sites picked by
    [kawasaki] hold equal spins, and in particular when the same site is
    picked twice, the call returns the model unchanged (same lattice,
    same [total_E]) and leaves the generator advanced by exactly the four
    index draws: no Metropolis draw is made. *)
Theorem kawasaki_equal_spins_noop (self : IsingModel) (g : rng) :
  0 < fst (size self) -> 0 < snd (size self) ->
  let p1 := drawn_site self g in
  let p2 := drawn_site self (advance 2 g) in
  random_site self g = Ok (p1, advance 2 g) /\
  random_site self (advance 2 g) = Ok (p2, advance 4 g) /\
  (grid_get (lattice self) p1 = grid_get (lattice self) p2 ->
   kawasaki self g = Ok (self, advance 4 g)) /\
  (p1 = p2 -> kawasaki self g = Ok (self, advance 4 g)).
Proof.
  intros Hr Hc p1 p2.
  split; [apply random_site_ok; assumption |].
  split.
  { rewrite random_site_ok by assumption. rewrite advance_advance. reflexivity. }
  split.
  - intros E. apply kawasaki_equal; assumption.
  - intros E. apply kawasaki_equal; try assumption.
    fold p1 p2. rewrite E. reflexivity.
Qed.

(** On the all-up 2 x 2 lattice the zero generator picks site (0, 0) twice. *)
Lemma kawasaki_equal_spins_noop_witness :
  drawn_site up_2x2 zero_rng = drawn_site up_2x2 (advance 2 zero_rng) /\
  kawasaki up_2x2 zero_rng = Ok (up_2x2, advance 4 zero_rng).
Proof.
  assert (E : drawn_site up_2x2 zero_rng = drawn_site up_2x2 (advance 2 zero_rng))
    by reflexivity.
  split; [exact E |].
  apply (kawasaki_equal_spins_noop up_2x2 zero_rng); [reflexivity | reflexivity | exact E].
Defined.

(** C7.  On a well-shaped lattice of spins +1/-1 with at least one site,
    every [kawasaki] call returns, and the sum of all spins afterwards
    equals the sum before; hence along any number of successive calls the
    sum of spins of every lattice reached equals the initial one. *)
Theorem kawasaki_conserves_spin_sum (self : IsingModel) (g : rng) (k : nat) :
  shape_ok self -> spins_ok self ->
  0 < fst (size self) -> 0 < snd (size self) ->
  (exists self' g',
      kawasaki self g = Ok (self', g') /\
      np_sum (lattice self') = np_sum (lattice self) /\
      get_abs_M self' = get_abs_M self) /\
  (exists states g',
      trace kawasaki k self g = Ok (states, g') /\
      length states = k /\
      Forall (fun st => np_sum (lattice st) = np_sum (lattice self)) states).
Proof.
  intros Hshape Hspins Hr Hc. split.
  - destruct (kawasaki_preserves self g Hshape Hr Hc)
      as (self' & g' & Hrun & _ & _ & Hs & _).
    destruct (Hs Hspins) as [_ Hsum].
    exists self', g'. split; [exact Hrun |]. split; [exact Hsum |].
    unfold get_abs_M. rewrite Hsum. reflexivity.
  - apply trace_kawasaki; assumption.
Qed.

(** Three exchanges on the all-up 2 x 2 lattice. *)
Lemma kawasaki_conserves_spin_sum_witness :
  exists states g',
    trace kawasaki 3 up_2x2 zero_rng = Ok (states, g') /\
    length states = 3%nat /\
    Forall (fun st => np_sum (lattice st) = np_sum (lattice up_2x2)) states.
Proof.
  apply (kawasaki_conserves_spin_sum up_2x2 zero_rng 3
           up_2x2_shape up_2x2_spins); reflexivity.
Defined.

(** C1, the claim as written fails on a lattice with a single row or
    column.  On the 1 x 1 lattice the only site is its own neighbour:
    construction stores the energy -2, an accepted [glauber] flip adds
    [dE = 8] and stores 6, while the recomputation on the flipped lattice
    still gives -2. *)
Lemma energy_invariant_fails_one_site :
  init (1, 1) 1%R "u" "glauber" zero_rng = Ok (Some one_site, zero_rng) /\
  total_E one_site = get_total_E one_site /\
  exists self' g',
    run_moves [Glauber] one_site zero_rng = Ok (self', g') /\
    lattice self' = [[-1]] /\
    total_E self' = 6%R /\ get_total_E self' = (-2)%R /\
    total_E self' <> get_total_E self'.
Proof.
  split; [reflexivity |]. split; [reflexivity |].
  destruct (glauber_run one_site zero_rng ltac:(reflexivity) ltac:(reflexivity))
    as (b & g' & Hm & Hrun).
  destruct (metropolis_zero_rng one_site
              (get_dE one_site (drawn_site one_site zero_rng)) 2) as [g'' Hm'].
  rewrite Hm' in Hm. injection Hm as Hb Hg. subst b g''.
  eexists; exists g'. split.
  { unfold run_moves. simpl. unfold bind. rewrite Hrun. reflexivity. }
  assert (E6 : total_E (set_total_E
                          (flip one_site (drawn_site one_site zero_rng))
                          (total_E one_site
                           + IZR (get_dE one_site (drawn_site one_site zero_rng))))
               = 6%R).
  { cbn [total_E set_total_E]. unfold one_site at 1, with_fresh_energy.
    cbn [total_E set_total_E]. unfold get_total_E.
    replace (sum_unit_E _) with (-4) by reflexivity.
    replace (get_dE _ _) with 8 by reflexivity. lra. }
  assert (E2 : get_total_E (set_total_E
                          (flip one_site (drawn_site one_site zero_rng))
                          (total_E one_site
                           + IZR (get_dE one_site (drawn_site one_site zero_rng))))
               = (-2)%R).
  { unfold get_total_E.
    replace (sum_unit_E _) with (-4) by reflexivity. lra. }
  split; [reflexivity |]. split; [exact E6 |]. split; [exact E2 |].
  rewrite E6, E2. lra.
Qed.

(** C1, amended.  For every well-shaped lattice with at least two rows and
    two columns whose stored [total_E] equals [get_total_E], every finite
    sequence of [glauber] and [kawasaki] steps runs to completion and
    leaves [total_E] equal to the value [get_total_E] recomputes from the
    resulting grid. *)
Theorem energy_invariant_runs (ms : list move) (self : IsingModel) (g : rng) :
  shape_ok self -> 2 <= fst (size self) -> 2 <= snd (size self) ->
  total_E self = get_total_E self ->
  exists self' g',
    run_moves ms self g = Ok (self', g') /\
    total_E self' = get_total_E self'.
Proof.
  intros Hshape Hr Hc He.
  destruct (run_moves_preserves ms self g Hshape Hr Hc He)
    as (self' & g' & Hrun & _ & _ & He').
  exists self', g'. split; assumption.
Qed.

(** A mixed run of three moves on the all-up 2 x 2 lattice. *)
Lemma energy_invariant_runs_witness :
  exists self' g',
    run_moves [Glauber; Kawasaki; Glauber] up_2x2 zero_rng = Ok (self', g') /\
    total_E self' = get_total_E self'.
Proof.
  apply (energy_invariant_runs [Glauber; Kawasaki; Glauber] up_2x2 zero_rng
           up_2x2_shape);
    [simpl; lia | simpl; lia | exact up_2x2_energy].
Defined.

(** C2, evaluated on the code.  On a sample list of length [N >= 2] the
    resampling loop shared by [bootstrap] and [bootstrap_chi] draws every
    index with [randint(0, N - 1)], whose upper bound is exclusive: each
    of the [N] indices drawn lies in [[0, N - 2]], so index [N - 1] is
    never selected, whatever the generator produces.  With one resample
    requested, both estimators are computed from that resample alone. *)
Theorem resample_never_draws_last (self : IsingModel) (xs : list R) (g : rng) :
  (2 <= length xs)%nat ->
  let N := length xs in
  let drawn := resample_indices N g in
  let sampling_data := map (fun r => nth (Z.to_nat r) xs 0%R) drawn in
  length drawn = N /\
  Forall (fun r => 0 <= r < Z.of_nat N - 1) drawn /\
  ~ In (Z.of_nat N - 1) drawn /\
  resample xs g = Ok (sampling_data, advance N g) /\
  bootstrap self xs 1 g
  = Ok (sqrt (np_var [get_heat_capacity self sampling_data]), advance N g) /\
  bootstrap_chi self xs 1 g
  = Ok (sqrt (np_var [get_chi self sampling_data]), advance N g).
Proof.
  intros Hlen N drawn sampling_data.
  pose proof (resample_indices_range N g Hlen) as Hrange. fold drawn in Hrange.
  split.
  { unfold drawn, resample_indices. rewrite length_map, length_seq. reflexivity. }
  split; [exact Hrange |].
  split.
  { intros Hin. rewrite Forall_forall in Hrange. apply Hrange in Hin. lia. }
  pose proof (resample_ok xs g Hlen) as Hres.
  fold N in Hres. fold drawn in Hres. fold sampling_data in Hres.
  split; [exact Hres |].
  split.
  - unfold bootstrap. change (range 1) with [0]. cbn [for_each].
    unfold bind. rewrite Hres. reflexivity.
  - unfold bootstrap_chi. change (range 1) with [0]. cbn [for_each].
    unfold bind. rewrite Hres. reflexivity.
Qed.

(** On the samples [1.0, 2.0] every resample is [1.0, 1.0]. *)
Lemma resample_never_draws_last_witness :
  resample [1%R; 2%R] zero_rng = Ok ([1%R; 1%R], advance 2 zero_rng).
Proof.
  exact (proj1 (proj2 (proj2 (proj2
           (resample_never_draws_last up_2x2 [1%R; 2%R] zero_rng (le_n 2)))))).
Defined.

(** C10.  On a sample list with exactly one element and at least one
    resample requested, [bootstrap] and [bootstrap_chi] raise [ValueError]
    instead of returning an estimate: the first index draw is
    [randint(0, 0)], whose range is empty. *)
Theorem bootstrap_single_sample_raises
        (self : IsingModel) (x : R) (samples : Z) (g : rng) :
  1 <= samples ->
  randint 0 (Z.of_nat (length [x]) - 1) g = Raise ValueError /\
  bootstrap self [x] samples g = Raise ValueError /\
  bootstrap_chi self [x] samples g = Raise ValueError.
Proof.
  intros Hs. split; [reflexivity |].
  destruct (range_pos samples Hs) as [t Ht].
  split.
  - unfold bootstrap. rewrite Ht. cbn [for_each]. unfold bind.
    rewrite resample_single. reflexivity.
  - unfold bootstrap_chi. rewrite Ht. cbn [for_each]. unfold bind.
    rewrite resample_single. reflexivity.
Qed.

(** One energy sample, one resample requested. *)
Lemma bootstrap_single_sample_raises_witness :
  bootstrap up_2x2 [(-8)%R] 1 zero_rng = Raise ValueError /\
  bootstrap_chi up_2x2 [(-8)%R] 1 zero_rng = Raise ValueError.
Proof.
  exact (proj2 (bootstrap_single_sample_raises up_2x2 (-8)%R 1 zero_rng
                  ltac:(lia))).
Defined.

(** C3, evaluated on the code.  In the run [small_run] (2 x 2 lattice
    at temperature 1, one sweep, [eqm_sweeps = 1], [n = 1]) sweep 1
    qualifies, and the driver records four energies and four
    magnetisations during it, one after each of the four update steps,
    where the claim asks for exactly one: the sampling test, which reads
    the sweep index only, sits inside the loop over the update steps. *)
Lemma sweep_records_more_than_once :
  is_due small_run 0 = true /\
  exists self,
    init (lattice_size small_run) 1%R "u" (dynamics_name small_run) zero_rng
    = Ok (Some self, zero_rng) /\
    exists l energy_per_temp mag_per_temp g',
      for_each (range (sweeps small_run)) (glauber_sweep small_run)
               (self, [], []) zero_rng
      = Ok ((l, energy_per_temp, mag_per_temp), g') /\
      length energy_per_temp = 4%nat /\
      length mag_per_temp = 4%nat /\
      length energy_per_temp <> 1%nat.
Proof.
  split; [reflexivity |].
  eexists. split; [apply init_u; simpl; lia |].
  set (self := with_fresh_energy _ _ _ _ _).
  assert (Hshape : shape_ok self) by (apply up_lattice_shape; simpl; lia).
  destruct (trace_glauber_total 4 self zero_rng Hshape
              ltac:(reflexivity) ltac:(reflexivity))
    as (states & g' & Htr & Hlen & _).
  pose proof (glauber_sweep_loop small_run 0 (range 4) ltac:(simpl; lia)
                self [] [] zero_rng g' states Htr) as Hloop.
  change (is_due small_run 0) with true in Hloop. cbv iota in Hloop.
  exists (last states self), (map total_E states), (map get_abs_M states), g'.
  split.
  - change (range (sweeps small_run)) with [0]. cbn [for_each].
    unfold bind, glauber_sweep.
    change (range (fst (lattice_size small_run) * snd (lattice_size small_run)))
      with (range 4).
    rewrite Hloop. reflexivity.
  - rewrite !length_map, Hlen. repeat split; lia.
Qed.

(** The same in every sweep.  With a non-zero stride [n] and at
    positive temperature, in every sweep (loop index [j], 1-based sweep
    index [s = j + 1]) started on a well-shaped lattice of the run's
    size, the [rows * cols] update steps all run, and when
    [s >= eqm_sweeps] and [s mod n = 0] the sampling test fires after
    each of them, not once after the last one; a sweep not satisfying
    the condition contributes no sample. *)
Theorem sweep_records_every_step
        (p : params) (j : Z) (self : IsingModel)
        (energy_per_temp : list R) (mag_per_temp : list Z) (g : rng) :
  shape_ok self -> size self = lattice_size p -> n p <> 0 ->
  (0 < temp self)%R ->
  let steps := Z.to_nat (fst (lattice_size p) * snd (lattice_size p)) in
  let due := (j + 1 >=? eqm_sweeps p) && ((j + 1) mod n p =? 0) in
  (exists states g',
      trace glauber steps self g = Ok (states, g') /\
      length states = steps /\
      size (last states self) = lattice_size p /\ shape_ok (last states self) /\
      glauber_sweep p j (self, energy_per_temp, mag_per_temp) g
      = Ok ((last states self,
             energy_per_temp ++ (if due then map total_E states else []),
             mag_per_temp ++ (if due then map get_abs_M states else [])), g')) /\
  (exists states g',
      trace kawasaki steps self g = Ok (states, g') /\
      length states = steps /\
      size (last states self) = lattice_size p /\ shape_ok (last states self) /\
      kawasaki_sweep p j (self, energy_per_temp, mag_per_temp) g
      = Ok ((last states self,
             energy_per_temp ++ (if due then map total_E states else []),
             mag_per_temp), g')).
Proof.
  intros Hshape Hsize Hn _ steps due.
  assert (Hlen : length (range (fst (lattice_size p) * snd (lattice_size p))) = steps)
    by apply length_range.
  split.
  - destruct (sweep_trace_total glauber (lattice_size p) self g
                trace_glauber_total Hshape Hsize)
      as (states & g' & Htr & Hl & Hsz & Hsh).
    exists states, g'. split; [exact Htr |]. split; [exact Hl |].
    split; [exact Hsz |]. split; [exact Hsh |].
    unfold glauber_sweep. apply glauber_sweep_loop; [exact Hn |].
    rewrite Hlen. exact Htr.
  - destruct (sweep_trace_total kawasaki (lattice_size p) self g
                trace_kawasaki_total Hshape Hsize)
      as (states & g' & Htr & Hl & Hsz & Hsh).
    exists states, g'. split; [exact Htr |]. split; [exact Hl |].
    split; [exact Hsz |]. split; [exact Hsh |].
    unfold kawasaki_sweep. apply kawasaki_sweep_loop; [exact Hn |].
    rewrite Hlen. exact Htr.
Qed.

(** The qualifying sweep of [small_run], run with exchange moves. *)
Lemma sweep_records_every_step_witness :
  exists states g',
    trace kawasaki 4 up_2x2 zero_rng = Ok (states, g') /\
    length states = 4%nat /\
    size (last states up_2x2) = (2, 2) /\ shape_ok (last states up_2x2) /\
    kawasaki_sweep small_run 0 (up_2x2, [], []) zero_rng
    = Ok ((last states up_2x2, [] ++ map total_E states, []), g').
Proof.
  exact (proj2 (sweep_records_every_step small_run 0 up_2x2 [] [] zero_rng
                  up_2x2_shape eq_refl ltac:(simpl; lia) ltac:(simpl; lra))).
Defined.

(** C8, the claim as written fails.  The run [unknown_run] names the
    dynamics "wolff"; on one temperature the driver finishes without any
    exception, with every list and both outputs empty and the generator
    untouched. *)
Lemma unknown_dynamics_is_silent :
  dynamics_name unknown_run <> "glauber"%string /\
  dynamics_name unknown_run <> "kawasaki"%string /\
  main unknown_run [1%R] zero_rng = Ok (empty_driver, zero_rng) /\
  forall e, main unknown_run [1%R] zero_rng <> Raise e.
Proof.
  assert (H : main unknown_run [1%R] zero_rng = Ok (empty_driver, zero_rng)).
  { apply main_unknown; simpl; try lia; discriminate. }
  split; [discriminate |]. split; [discriminate |]. split; [exact H |].
  intros e. rewrite H. discriminate.
Qed.

(** C8, amended.  If the dynamics name of the run is neither "glauber"
    nor "kawasaki" (and the lattice side is not negative), the driver
    raises no error: for every temperature it builds the lattice, takes
    neither branch, performs no update step (the generator is untouched)
    and emits no output record. *)
Theorem unknown_dynamics_no_error (p : params) (temp_range : list R) (g : rng) :
  dynamics_name p <> "glauber"%string -> dynamics_name p <> "kawasaki"%string ->
  0 <= fst (lattice_size p) -> 0 <= snd (lattice_size p) ->
  exists d,
    main p temp_range g = Ok (d, g) /\
    glauber_output d = [] /\ kawasaki_output d = [] /\
    energies d = [] /\ heat_capacties d = [].
Proof.
  intros Hg Hk Hr Hc. exists empty_driver.
  split; [apply main_unknown; assumption |].
  repeat split; reflexivity.
Qed.

(** The run [unknown_run] over two temperatures. *)
Lemma unknown_dynamics_no_error_witness :
  exists d,
    main unknown_run [1%R; 2%R] zero_rng = Ok (d, zero_rng) /\
    glauber_output d = [] /\ kawasaki_output d = [] /\
    energies d = [] /\ heat_capacties d = [].
Proof.
  apply (unknown_dynamics_no_error unknown_run [1%R; 2%R] zero_rng);
    [discriminate | discriminate | simpl; lia | simpl; lia].
Defined.

(** * Further properties of the code *)

(** ** Periodic boundary and local energies *)

(** X1.  On a lattice with at least one site [pbc] always lands on a site,
    leaves every site where it is, is idempotent, and wraps the four
    out-of-range coordinates that [get_dE] and [unit_E] produce: row -1
    to the last row, row [rows] to row 0, and likewise for columns. *)
Theorem pbc_wraps (self : IsingModel) (i j : Z) :
  0 < fst (size self) -> 0 < snd (size self) ->
  in_grid self (pbc self (i, j)) /\
  (in_grid self (i, j) -> pbc self (i, j) = (i, j)) /\
  pbc self (pbc self (i, j)) = pbc self (i, j) /\
  fst (pbc self (-1, j)) = fst (size self) - 1 /\
  fst (pbc self (fst (size self), j)) = 0 /\
  snd (pbc self (i, -1)) = snd (size self) - 1 /\
  snd (pbc self (i, snd (size self))) = 0.
Proof.
  intros Hr Hc. unfold pbc, in_grid. cbn [fst snd].
  split; [split; apply Z.mod_pos_bound; assumption |].
  split.
  { intros [Hi Hj]. rewrite !Z.mod_small by assumption. reflexivity. }
  split.
  { rewrite !Z.mod_mod by lia. reflexivity. }
  split.
  { symmetry. apply (Z.mod_unique (-1) _ (-1)); lia. }
  split; [apply Z.mod_same; lia |].
  split.
  { symmetry. apply (Z.mod_unique (-1) _ (-1)); lia. }
  apply Z.mod_same; lia.
Qed.

(** Row 2 of the 2 x 2 lattice wraps to row 0. *)
Lemma pbc_wraps_witness : fst (pbc up_2x2 (2, 1)) = 0.
Proof.
  exact (proj1 (proj2 (proj2 (proj2 (proj2
           (pbc_wraps up_2x2 2 1 ltac:(reflexivity) ltac:(reflexivity))))))).
Defined.

Lemma neighbours_in_grid (self : IsingModel) (p : Z * Z) :
  0 < fst (size self) -> 0 < snd (size self) ->
  in_grid self (pbc self (fst p - 1, snd p)) /\
  in_grid self (pbc self (fst p + 1, snd p)) /\
  in_grid self (pbc self (fst p, snd p - 1)) /\
  in_grid self (pbc self (fst p, snd p + 1)).
Proof.
  intros Hr Hc. unfold pbc, in_grid. cbn [fst snd].
  repeat split; apply Z.mod_pos_bound; assumption.
Qed.

Lemma spin_neighbourhood (self : IsingModel) (p : Z * Z) :
  shape_ok self -> spins_ok self -> in_grid self p ->
  let s := grid_get (lattice self) in
  (s p = 1 \/ s p = -1) /\
  (s (pbc self (fst p - 1, snd p)) = 1 \/ s (pbc self (fst p - 1, snd p)) = -1) /\
  (s (pbc self (fst p + 1, snd p)) = 1 \/ s (pbc self (fst p + 1, snd p)) = -1) /\
  (s (pbc self (fst p, snd p - 1)) = 1 \/ s (pbc self (fst p, snd p - 1)) = -1) /\
  (s (pbc self (fst p, snd p + 1)) = 1 \/ s (pbc self (fst p, snd p + 1)) = -1).
Proof.
  intros Hshape Hspins Hin s.
  assert (Hr : 0 < fst (size self)) by (destruct Hin; lia).
  assert (Hc : 0 < snd (size self)) by (destruct Hin; lia).
  destruct (neighbours_in_grid self p Hr Hc) as (Hu & Hd & Hl & Hrt).
  repeat split; apply spin_at_site; assumption.
Qed.

Lemma unit_E_range (self : IsingModel) (p : Z * Z) :
  shape_ok self -> spins_ok self -> in_grid self p ->
  -4 <= unit_E self p <= 4.
Proof.
  intros Hshape Hspins Hin.
  destruct (spin_neighbourhood self p Hshape Hspins Hin)
    as (S0 & S1 & S2 & S3 & S4).
  unfold unit_E, neighbour_sum. destruct p as [i j]. cbn [fst snd] in *.
  destruct S0 as [-> | ->], S1 as [-> | ->], S2 as [-> | ->],
           S3 as [-> | ->], S4 as [-> | ->]; lia.
Qed.

(** X2.  On a well-shaped lattice of spins with at least one site, the
    flip delta of a site is one of -8, -4, 0, 4, 8, it is minus twice the
    site's [unit_E], and [unit_E] lies between -4 and 4. *)
Theorem get_dE_values (self : IsingModel) (p : Z * Z) :
  shape_ok self -> spins_ok self -> in_grid self p ->
  In (get_dE self p) [-8; -4; 0; 4; 8] /\
  get_dE self p = -2 * unit_E self p /\
  -4 <= unit_E self p <= 4.
Proof.
  intros Hshape Hspins Hin.
  destruct (spin_neighbourhood self p Hshape Hspins Hin)
    as (S0 & S1 & S2 & S3 & S4).
  split; [| split].
  - unfold get_dE, neighbour_sum. destruct p as [i j]. cbn [fst snd] in *.
    destruct S0 as [-> | ->], S1 as [-> | ->], S2 as [-> | ->],
             S3 as [-> | ->], S4 as [-> | ->]; simpl; intuition lia.
  - unfold get_dE, unit_E. ring.
  - apply unit_E_range; assumption.
Qed.

(** At a site of the all-up 2 x 2 lattice the flip delta is 8. *)
Lemma get_dE_values_witness :
  In (get_dE up_2x2 (0, 1)) [-8; -4; 0; 4; 8] /\
  get_dE up_2x2 (0, 1) = -2 * unit_E up_2x2 (0, 1) /\
  -4 <= unit_E up_2x2 (0, 1) <= 4.
Proof.
  apply (get_dE_values up_2x2 (0, 1) up_2x2_shape up_2x2_spins).
  unfold in_grid; simpl; lia.
Defined.

(** X3.  On a well-shaped lattice with at least two rows and two columns
    [get_dE] is the exact change of [get_total_E] under the flip of its
    site. *)
Theorem get_dE_is_flip_delta (self : IsingModel) (p : Z * Z) :
  shape_ok self -> 2 <= fst (size self) -> 2 <= snd (size self) ->
  in_grid self p ->
  get_total_E (flip self p) = (get_total_E self + IZR (get_dE self p))%R.
Proof.
  intros Hshape Hr Hc Hin. unfold get_total_E.
  rewrite flip_sum_unit_E by assumption.
  rewrite plus_IZR, mult_IZR. lra.
Qed.

(** Flipping a site of the all-up 2 x 2 lattice raises the energy by 8. *)
Lemma get_dE_is_flip_delta_witness :
  get_total_E (flip up_2x2 (1, 0))
  = (get_total_E up_2x2 + IZR (get_dE up_2x2 (1, 0)%Z))%R.
Proof.
  apply (get_dE_is_flip_delta up_2x2 (1, 0) up_2x2_shape);
    unfold in_grid; simpl; lia.
Defined.

(** X4.  Flipping the same site twice restores the model exactly, and on
    a lattice with at least two rows and two columns the second flip
    delta is the opposite of the first, so two accepted flips of one
    site leave [total_E] where it was. *)
Theorem flip_twice_restores (self : IsingModel) (p : Z * Z) :
  shape_ok self -> in_grid self p ->
  flip (flip self p) p = self /\
  (2 <= fst (size self) -> 2 <= snd (size self) ->
   get_dE (flip self p) p = - get_dE self p).
Proof.
  intros Hshape Hin.
  destruct (shape_row self p Hshape Hin) as [Hi Hj].
  split.
  - unfold flip, set_lattice. cbn [lattice size temp ini dynamics total_E].
    rewrite grid_get_set_same by assumption.
    replace (grid_get (lattice self) p * -1 * -1) with (grid_get (lattice self) p)
      by lia.
    rewrite grid_set_restore. destruct self; reflexivity.
  - intros Hr Hc.
    assert (Hr' : 0 < fst (size self)) by lia.
    assert (Hc' : 0 < snd (size self)) by lia.
    destruct (neighbours_in_grid self p Hr' Hc') as (Hu & Hd & Hl & Hrt).
    destruct Hin as [Ha Hb].
    assert (Hin : in_grid self p) by (split; assumption).
    unfold get_dE, neighbour_sum. destruct p as [a b]. cbn [fst snd] in *.
    change (pbc (flip self (a, b))) with (pbc self).
    rewrite (flip_other_site self (a, b) (pbc self (a - 1, b)) Hin Hu).
    rewrite (flip_other_site self (a, b) (pbc self (a + 1, b)) Hin Hd).
    rewrite (flip_other_site self (a, b) (pbc self (a, b - 1)) Hin Hl).
    rewrite (flip_other_site self (a, b) (pbc self (a, b + 1)) Hin Hrt).
    + unfold flip. cbn [lattice set_lattice].
      rewrite grid_get_set_same by assumption. ring.
    + unfold pbc; cbn [fst snd]. intros E. injection E as _ E.
      symmetry in E. exact (succ_torus_moves _ _ Hc Hb E).
    + unfold pbc; cbn [fst snd]. intros E. injection E as _ E.
      symmetry in E. exact (pred_torus_moves _ _ Hc Hb E).
    + unfold pbc; cbn [fst snd]. intros E. injection E as E _.
      symmetry in E. exact (succ_torus_moves _ _ Hr Ha E).
    + unfold pbc; cbn [fst snd]. intros E. injection E as E _.
      symmetry in E. exact (pred_torus_moves _ _ Hr Ha E).
Qed.

(** Two flips of site (0, 0) of the all-up 2 x 2 lattice. *)
Lemma flip_twice_restores_witness :
  flip (flip up_2x2 (0, 0)) (0, 0) = up_2x2.
Proof.
  apply (flip_twice_restores up_2x2 (0, 0) up_2x2_shape).
  unfold in_grid; simpl; lia.
Defined.

(** ** Global energy and magnetisation *)

Lemma sum_list_bounds {A : Type} (f : A -> Z) (l : list A) (lo hi : Z) :
  (forall x, In x l -> lo <= f x <= hi) ->
  lo * Z.of_nat (length l) <= sum_list f l <= hi * Z.of_nat (length l).
Proof.
  induction l as [| x t IH]; intros H.
  - simpl. lia.
  - cbn [sum_list fold_right length].
    fold (sum_list f t).
    pose proof (H x (or_introl eq_refl)).
    pose proof (IH (fun y Hy => H y (or_intror Hy))).
    lia.
Qed.

Lemma grid_sum_bounds (rows cols : Z) (f : Z * Z -> Z) (lo hi : Z) :
  0 <= rows -> 0 <= cols ->
  (forall q, 0 <= fst q < rows -> 0 <= snd q < cols -> lo <= f q <= hi) ->
  lo * (rows * cols) <= grid_sum rows cols f <= hi * (rows * cols).
Proof.
  intros Hr Hc H. unfold grid_sum.
  pose proof (sum_list_bounds
                (fun i => sum_list (fun j => f (i, j)) (range cols))
                (range rows) (lo * cols) (hi * cols)) as Hb.
  rewrite length_range in Hb. rewrite Z2Nat.id in Hb by exact Hr.
  assert (Hinner : forall i, In i (range rows) ->
            lo * cols <= sum_list (fun j => f (i, j)) (range cols) <= hi * cols).
  { intros i Hi. apply in_range in Hi.
    pose proof (sum_list_bounds (fun j => f (i, j)) (range cols) lo hi) as Hb'.
    rewrite length_range in Hb'. rewrite Z2Nat.id in Hb' by exact Hc.
    apply Hb'. intros j Hj. apply in_range in Hj. apply H; simpl; lia. }
  specialize (Hb Hinner). lia.
Qed.

(** X5.  For a well-shaped lattice of spins, [get_total_E] lies between
    -2 rows cols and 2 rows cols, and [get_abs_M] between 0 and
    rows cols. *)
Theorem energy_and_magnetisation_bounds (self : IsingModel) :
  shape_ok self -> spins_ok self ->
  let sites := fst (size self) * snd (size self) in
  (IZR (-2 * sites) <= get_total_E self <= IZR (2 * sites))%R /\
  0 <= get_abs_M self <= sites.
Proof.
  intros Hshape Hspins sites. split.
  - assert (Hb : -4 * sites <= sum_unit_E self <= 4 * sites).
    { rewrite sum_unit_E_grid_sum.
      destruct Hshape as (Hr & Hc & Hrest).
      apply grid_sum_bounds; try assumption.
      intros q Hq1 Hq2.
      apply (unit_E_range self q); try assumption.
      - repeat split; tauto.
      - split; assumption. }
    unfold get_total_E. destruct Hb as [Hlo Hhi].
    apply IZR_le in Hlo. apply IZR_le in Hhi.
    rewrite mult_IZR in Hlo, Hhi. rewrite !mult_IZR.
    split; lra.
  - unfold get_abs_M. rewrite np_sum_rows.
    destruct Hshape as (Hr & Hc & Hlen & Hrows).
    pose proof (sum_list_bounds (sum_list (fun x => x)) (lattice self)
                  (- snd (size self)) (snd (size self))) as Hb.
    rewrite Hlen, Z2Nat.id in Hb by exact Hr.
    assert (Hrow : forall row, In row (lattice self) ->
              - snd (size self) <= sum_list (fun x => x) row <= snd (size self)).
    { intros row Hin.
      rewrite Forall_forall in Hrows. specialize (Hrows row Hin).
      unfold spins_ok in Hspins. rewrite Forall_forall in Hspins.
      specialize (Hspins row Hin). rewrite Forall_forall in Hspins.
      pose proof (sum_list_bounds (fun x => x) row (-1) 1) as Hb'.
      rewrite Hrows, Z2Nat.id in Hb' by exact Hc.
      assert (forall x, In x row -> -1 <= x <= 1)
        by (intros x Hx; destruct (Hspins x Hx); lia).
      specialize (Hb' H). lia. }
    specialize (Hb Hrow). unfold sites. lia.
Qed.

(** The bounds on the all-up 2 x 2 lattice. *)
Lemma energy_and_magnetisation_bounds_witness :
  (IZR (-2 * (2 * 2)) <= get_total_E up_2x2 <= IZR (2 * (2 * 2)))%R /\
  0 <= get_abs_M up_2x2 <= 2 * 2.
Proof.
  exact (energy_and_magnetisation_bounds up_2x2 up_2x2_shape up_2x2_spins).
Defined.

Lemma grid_get_ones (rows cols : nat) (q : Z * Z) :
  (Z.to_nat (fst q) < rows)%nat -> (Z.to_nat (snd q) < cols)%nat ->
  grid_get (repeat (repeat 1 cols) rows) q = 1.
Proof.
  intros Hi Hj. unfold grid_get.
  assert (Hrow : nth (Z.to_nat (fst q)) (repeat (repeat 1 cols) rows) []
                 = repeat 1 cols).
  { apply (repeat_spec rows). apply nth_In. rewrite repeat_length. exact Hi. }
  rewrite Hrow. apply (repeat_spec cols). apply nth_In.
  rewrite repeat_length. exact Hj.
Qed.

(** X6.  Construction in the uniform-up configuration, for any shape
    without a negative dimension, draws nothing and yields the lattice
    whose stored energy is the lower bound -2 rows cols and whose
    magnetisation is the upper bound rows cols. *)
Theorem init_u_ground_state (sz : Z * Z) (t : R) (d : string) (g : rng) :
  0 <= fst sz -> 0 <= snd sz ->
  exists self,
    init sz t "u" d g = Ok (Some self, g) /\
    size self = sz /\ shape_ok self /\ spins_ok self /\
    total_E self = IZR (-2 * (fst sz * snd sz)) /\
    get_abs_M self = fst sz * snd sz.
Proof.
  intros Hr Hc. eexists. split; [apply init_u; assumption |].
  set (self := with_fresh_energy _ _ _ _ _).
  assert (Hshape : shape_ok self) by (apply up_lattice_shape; assumption).
  assert (Hspins : spins_ok self) by apply up_lattice_spins.
  split; [reflexivity |]. split; [exact Hshape |]. split; [exact Hspins |].
  assert (Hone : forall q, in_grid self q -> grid_get (lattice self) q = 1).
  { intros q [Hi Hj]. unfold self, with_fresh_energy. cbn [lattice set_total_E].
    cbn [size with_fresh_energy set_total_E self] in Hi, Hj.
    apply grid_get_ones; lia. }
  split.
  - change (total_E self) with (get_total_E self). unfold get_total_E.
    assert (Hsum : sum_unit_E self = -4 * (fst sz * snd sz)).
    { rewrite sum_unit_E_grid_sum. change (size self) with sz.
      pose proof (grid_sum_bounds (fst sz) (snd sz) (unit_E self) (-4) (-4) Hr Hc)
        as Hb.
      assert (Hunit : forall q, 0 <= fst q < fst sz -> 0 <= snd q < snd sz ->
                                -4 <= unit_E self q <= -4).
      { intros q Hq1 Hq2.
        assert (Hq : in_grid self q) by (split; assumption).
        destruct (neighbours_in_grid self q ltac:(simpl; lia) ltac:(simpl; lia))
          as (Hu & Hd & Hl & Hrt).
        unfold unit_E, neighbour_sum. destruct q as [i j]. cbn [fst snd] in *.
        rewrite !Hone by assumption. lia. }
      specialize (Hb Hunit). lia. }
    rewrite Hsum, !mult_IZR. lra.
  - unfold get_abs_M. rewrite np_sum_rows.
    unfold self, with_fresh_energy. cbn [lattice set_total_E].
    pose proof (sum_list_bounds (sum_list (fun x => x))
                  (repeat (repeat 1 (Z.to_nat (snd sz))) (Z.to_nat (fst sz)))
                  (snd sz) (snd sz)) as Hb.
    rewrite repeat_length, Z2Nat.id in Hb by exact Hr.
    assert (Hrow : forall row,
              In row (repeat (repeat 1 (Z.to_nat (snd sz))) (Z.to_nat (fst sz))) ->
              snd sz <= sum_list (fun x => x) row <= snd sz).
    { intros row Hin. apply repeat_spec in Hin. subst row.
      pose proof (sum_list_bounds (fun x => x) (repeat 1 (Z.to_nat (snd sz))) 1 1)
        as Hb'.
      rewrite repeat_length, Z2Nat.id in Hb' by exact Hc.
      assert (forall x, In x (repeat 1 (Z.to_nat (snd sz))) -> 1 <= x <= 1)
        by (intros x Hx; apply repeat_spec in Hx; lia).
      specialize (Hb' H). lia. }
    specialize (Hb Hrow). nia.
Qed.

(** The 3 x 5 all-up lattice has energy -30 and magnetisation 15. *)
Lemma init_u_ground_state_witness :
  exists self,
    init (3, 5) 2%R "u" "glauber" zero_rng = Ok (Some self, zero_rng) /\
    size self = (3, 5) /\ shape_ok self /\ spins_ok self /\
    total_E self = IZR (-2 * (3 * 5)) /\
    get_abs_M self = 3 * 5.
Proof.
  apply (init_u_ground_state (3, 5) 2%R "glauber" zero_rng); simpl; lia.
Defined.

(** ** The two moves *)

(** X7.  On a well-shaped lattice with at least one site, at positive
    temperature, [glauber] always returns.  Either nothing changes (the model is returned as it was,
    after one Metropolis draw), or exactly the drawn site is negated and
    [total_E] grows by that site's [get_dE]: spin and energy change
    together or not at all.  A negative [get_dE] is always taken, without
    a Metropolis draw. *)
Theorem glauber_lockstep (self : IsingModel) (g : rng) :
  shape_ok self -> 0 < fst (size self) -> 0 < snd (size self) ->
  (0 < temp self)%R ->
  let p := drawn_site self g in
  let dE := get_dE self p in
  exists self' g',
    glauber self g = Ok (self', g') /\
    ((self' = self /\ 0 <= dE /\ g' = advance 3 g) \/
     (grid_get (lattice self') p = - grid_get (lattice self) p /\
      (forall q, in_grid self q -> q <> p ->
                 grid_get (lattice self') q = grid_get (lattice self) q) /\
      total_E self' = (total_E self + IZR dE)%R /\
      size self' = size self /\ temp self' = temp self)) /\
    (dE < 0 -> self' <> self /\ g' = advance 2 g).
Proof.
  intros Hshape Hr Hc _ p dE.
  assert (Hin : in_grid self p) by (apply drawn_site_in_grid; assumption).
  destruct (shape_row self p Hshape Hin) as [Hi Hj].
  assert (Hflip : grid_get (lattice (flip self p)) p = - grid_get (lattice self) p).
  { unfold flip. cbn [lattice set_lattice].
    rewrite grid_get_set_same by assumption. lia. }
  assert (Hchanged :
    forall e, dE <> 0 -> set_total_E (flip self p) e <> self).
  { intros e HdE E.
    assert (E' : grid_get (lattice (set_total_E (flip self p) e)) p
                 = grid_get (lattice self) p) by (rewrite E; reflexivity).
    cbn [lattice set_total_E] in E'. rewrite Hflip in E'.
    apply HdE. unfold dE, get_dE.
    replace (grid_get (lattice self) p) with 0 by lia. lia. }
  destruct (glauber_run self g Hr Hc) as (b & g' & Hm & Hrun).
  fold p in Hm, Hrun. fold dE in Hm, Hrun.
  destruct (Z.ltb_spec dE 0) as [Hneg | Hpos].
  - rewrite (metropolis_neg self dE _ Hneg) in Hm.
    injection Hm as <- <-.
    eexists; eexists. split; [exact Hrun |]. split.
    + right. split; [exact Hflip |].
      split; [intros q Hq Hne; apply flip_other_site; auto |].
      split; reflexivity || (split; reflexivity).
    + intros _. split; [apply Hchanged; lia | reflexivity].
  - rewrite (metropolis_nonneg self dE _ Hpos) in Hm.
    injection Hm as Hb Hg. rewrite advance_advance in Hg. simpl in Hg.
    eexists; eexists. split; [exact Hrun |]. split; [| intros; lia].
    destruct b.
    + right. split; [exact Hflip |].
      split; [intros q Hq Hne; apply flip_other_site; auto |].
      split; reflexivity || (split; reflexivity).
    + left. auto.
Qed.

(** One Glauber step on the all-up 2 x 2 lattice. *)
Lemma glauber_lockstep_witness :
  exists self' g',
    glauber up_2x2 zero_rng = Ok (self', g') /\
    ((self' = up_2x2 /\ 0 <= get_dE up_2x2 (drawn_site up_2x2 zero_rng)
      /\ g' = advance 3 zero_rng) \/
     (grid_get (lattice self') (drawn_site up_2x2 zero_rng)
      = - grid_get (lattice up_2x2) (drawn_site up_2x2 zero_rng) /\
      (forall q, in_grid up_2x2 q -> q <> drawn_site up_2x2 zero_rng ->
                 grid_get (lattice self') q = grid_get (lattice up_2x2) q) /\
      total_E self'
      = (total_E up_2x2 + IZR (get_dE up_2x2 (drawn_site up_2x2 zero_rng)))%R /\
      size self' = size up_2x2 /\ temp self' = temp up_2x2)) /\
    (get_dE up_2x2 (drawn_site up_2x2 zero_rng) < 0 ->
     self' <> up_2x2 /\ g' = advance 2 zero_rng).
Proof.
  apply (glauber_lockstep up_2x2 zero_rng up_2x2_shape);
    [reflexivity | reflexivity | simpl; lra].
Defined.


Lemma mixed_2x2_shape : shape_ok mixed_2x2.
Proof.
  unfold shape_ok, mixed_2x2, with_fresh_energy; simpl.
  repeat split; try lia. repeat constructor.
Qed.



(** X9.  On a well-shaped lattice with at least two rows and two columns
    the delta [kawasaki] computes for a pair of sites (the delta of the
    first site, plus the delta of the second site on the lattice with the
    first one flipped) is the exact change of [get_total_E] when both
    sites are flipped, also when the two sites are neighbours. *)
Theorem kawasaki_delta_exact (self : IsingModel) (p1 p2 : Z * Z) :
  shape_ok self -> 2 <= fst (size self) -> 2 <= snd (size self) ->
  in_grid self p1 -> in_grid self p2 ->
  get_total_E (flip (flip self p1) p2)
  = (get_total_E self + IZR (get_dE self p1 + get_dE (flip self p1) p2))%R.
Proof.
  intros Hshape Hr Hc Hin1 Hin2. unfold get_total_E.
  rewrite (flip_sum_unit_E (flip self p1) p2);
    [| apply flip_shape_ok; exact Hshape | exact Hr | exact Hc | exact Hin2].
  rewrite (flip_sum_unit_E self p1) by assumption.
  rewrite !plus_IZR, !mult_IZR. lra.
Qed.

(** The neighbouring sites (0, 0) and (0, 1) of the mixed 2 x 2 lattice. *)
Lemma kawasaki_delta_exact_witness :
  get_total_E (flip (flip mixed_2x2 (0, 0)) (0, 1))
  = (get_total_E mixed_2x2
     + IZR (get_dE mixed_2x2 (0, 0)%Z + get_dE (flip mixed_2x2 (0, 0)%Z) (0, 1)%Z))%R.
Proof.
  apply (kawasaki_delta_exact mixed_2x2 (0, 0) (0, 1) mixed_2x2_shape);
    unfold in_grid; simpl; lia.
Defined.

(** X10.  When the first site is neither the second site nor one of its
    four periodic neighbours, the trial flip of the first site does not
    change the second site's delta: the pair delta of [kawasaki] is then
    the sum of the two single-site deltas of the untouched lattice. *)
Theorem kawasaki_delta_far_sites (self : IsingModel) (p1 p2 : Z * Z) :
  0 < fst (size self) -> 0 < snd (size self) ->
  in_grid self p1 -> in_grid self p2 ->
  p1 <> p2 ->
  p1 <> pbc self (fst p2 - 1, snd p2) -> p1 <> pbc self (fst p2 + 1, snd p2) ->
  p1 <> pbc self (fst p2, snd p2 - 1) -> p1 <> pbc self (fst p2, snd p2 + 1) ->
  get_dE (flip self p1) p2 = get_dE self p2.
Proof.
  intros Hr Hc Hin1 Hin2 Hne Hu Hd Hl Hrt.
  destruct (neighbours_in_grid self p2 Hr Hc) as (Iu & Id & Il & Irt).
  unfold get_dE, neighbour_sum. destruct p2 as [a b]. cbn [fst snd] in *.
  change (pbc (flip self p1)) with (pbc self).
  rewrite (flip_other_site self p1 (a, b)) by assumption.
  rewrite (flip_other_site self p1 (pbc self (a - 1, b))) by assumption.
  rewrite (flip_other_site self p1 (pbc self (a + 1, b))) by assumption.
  rewrite (flip_other_site self p1 (pbc self (a, b - 1))) by assumption.
  rewrite (flip_other_site self p1 (pbc self (a, b + 1))) by assumption.
  reflexivity.
Qed.

(** Site (1, 1) is diagonal to site (0, 0) on the 2 x 2 lattice. *)
Lemma kawasaki_delta_far_sites_witness :
  get_dE (flip mixed_2x2 (1, 1)) (0, 0) = get_dE mixed_2x2 (0, 0).
Proof.
  apply (kawasaki_delta_far_sites mixed_2x2 (1, 1) (0, 0));
    try reflexivity;
    try (unfold in_grid; simpl; lia);
    intros E; lazy in E; discriminate E.
Defined.

(** ** Construction *)

Lemma advance_0 (g : rng) : advance 0 g = g.
Proof. destruct g as [t k]. unfold advance; simpl. f_equal. lia. Qed.

Lemma replicateM_run {A : Type} (P : A -> Prop) (c : M A) (k per : nat) :
  (forall g0, exists a, c g0 = Ok (a, advance per g0) /\ P a) ->
  forall g, exists l,
    replicateM k c g = Ok (l, advance (k * per) g) /\ length l = k /\ Forall P l.
Proof.
  intros Hc. induction k as [| k IH]; intros g.
  - exists []. split; [| split; [reflexivity | constructor]].
    simpl. unfold ret. rewrite advance_0. reflexivity.
  - destruct (Hc g) as (a & Ha & Pa).
    destruct (IH (advance per g)) as (l & Hl & Hlen & Hall).
    exists (a :: l). split; [| split].
    + simpl. unfold bind. rewrite Ha, Hl. unfold ret.
      rewrite advance_advance. reflexivity.
    + simpl. rewrite Hlen. reflexivity.
    + constructor; assumption.
Qed.

(** X11.  Construction in the random configuration, for any shape
    without a negative dimension, makes exactly one draw per site and
    yields a well-shaped lattice of spins +1/-1 whose stored [total_E] is
    the value [get_total_E] recomputes. *)
Theorem init_r_establishes (sz : Z * Z) (t : R) (d : string) (g : rng) :
  0 <= fst sz -> 0 <= snd sz ->
  exists self,
    init sz t "r" d g
    = Ok (Some self, advance (Z.to_nat (fst sz) * Z.to_nat (snd sz)) g) /\
    size self = sz /\ temp self = t /\ dynamics self = d /\
    shape_ok self /\ spins_ok self /\
    total_E self = get_total_E self.
Proof.
  intros Hr Hc.
  assert (Hspin : forall g0, exists s,
    (k <- randint 0 (Z.of_nat (length [-1; 1])) ;; ret (nth (Z.to_nat k) [-1; 1] 0)) g0
    = Ok (s, advance 1 g0) /\ (s = 1 \/ s = -1)).
  { intros g0. unfold bind. rewrite randint_ok by (simpl; lia).
    eexists. split; [reflexivity |].
    pose proof (Z.mod_pos_bound (tape g0 (pos g0)) 2 ltac:(lia)) as Hb.
    change (Z.of_nat (length [-1; 1]) - 0) with 2. rewrite Z.add_0_l.
    assert (Hk : tape g0 (pos g0) mod 2 = 0 \/ tape g0 (pos g0) mod 2 = 1) by lia.
    destruct Hk as [-> | ->]; simpl; auto. }
  assert (Hrow : forall g0, exists row,
    replicateM (Z.to_nat (snd sz))
      (k <- randint 0 (Z.of_nat (length [-1; 1])) ;; ret (nth (Z.to_nat k) [-1; 1] 0))
      g0
    = Ok (row, advance (Z.to_nat (snd sz)) g0) /\
    (length row = Z.to_nat (snd sz) /\ Forall (fun s => s = 1 \/ s = -1) row)).
  { intros g0.
    destruct (replicateM_run _ _ (Z.to_nat (snd sz)) 1 Hspin g0)
      as (row & Hrun & Hlen & Hall).
    rewrite Nat.mul_1_r in Hrun. exists row. auto. }
  destruct (replicateM_run _ _ (Z.to_nat (fst sz)) (Z.to_nat (snd sz)) Hrow g)
    as (rows & Hrun & Hlen & Hall).
  exists (with_fresh_energy sz t "r" d rows).
  split.
  - unfold init, build_lattice, np_random_choice, check_shape.
    cbn [String.eqb Ascii.eqb Bool.eqb].
    assert (E1 : (fst sz <? 0) = false) by (apply Z.ltb_ge; exact Hr).
    assert (E2 : (snd sz <? 0) = false) by (apply Z.ltb_ge; exact Hc).
    unfold bind in Hrun |- *. rewrite E1, E2. cbn [orb]. unfold ret at 1.
    rewrite Hrun. reflexivity.
  - split; [reflexivity |]. split; [reflexivity |]. split; [reflexivity |].
    split.
    { unfold shape_ok, with_fresh_energy; simpl.
      split; [exact Hr |]. split; [exact Hc |]. split; [exact Hlen |].
      eapply Forall_impl; [| exact Hall]. intros row [H _]. exact H. }
    split; [| reflexivity].
    unfold spins_ok, with_fresh_energy; simpl.
    eapply Forall_impl; [| exact Hall]. intros row [_ H]. exact H.
Qed.

(** The random 50 x 50 lattice of the tester script makes 2500 draws. *)
Lemma init_r_establishes_witness :
  exists self,
    init (50, 50) 1%R "r" "kawasaki" zero_rng
    = Ok (Some self, advance (Z.to_nat 50 * Z.to_nat 50) zero_rng) /\
    size self = (50, 50) /\ temp self = 1%R /\
    dynamics self = "kawasaki"%string /\
    shape_ok self /\ spins_ok self /\
    total_E self = get_total_E self.
Proof.
  apply (init_r_establishes (50, 50) 1%R "kawasaki" zero_rng); simpl; lia.
Defined.

(** X12.  What construction does outside the two common cases: an
    initial-state name other than "r", "u" and "k" yields an object
    without a lattice, with no error and no draw; a negative dimension is
    refused with [ValueError] in all three configurations; the split
    configuration "k" is refused with [ValueError] for every shape other
    than 50 x 50. *)
Theorem init_edge_cases (sz : Z * Z) (t : R) (i d : string) (g : rng) :
  (i <> "r"%string -> i <> "u"%string -> i <> "k"%string ->
   init sz t i d g = Ok (None, g)) /\
  (fst sz < 0 \/ snd sz < 0 ->
   i = "r"%string \/ i = "u"%string \/ i = "k"%string ->
   init sz t i d g = Raise ValueError) /\
  (i = "k"%string -> sz <> (50, 50) ->
   init sz t i d g = Raise ValueError).
Proof.
  split; [| split].
  - intros Hr Hu Hk. unfold init, build_lattice.
    apply String.eqb_neq in Hr. apply String.eqb_neq in Hu.
    apply String.eqb_neq in Hk. rewrite Hr, Hu, Hk. reflexivity.
  - intros Hneg Hi.
    assert (E : (fst sz <? 0) || (snd sz <? 0) = true).
    { destruct Hneg as [H | H].
      - apply Z.ltb_lt in H. rewrite H. reflexivity.
      - apply Z.ltb_lt in H. rewrite H. apply orb_true_r. }
    unfold init, build_lattice, np_random_choice, np_ones, check_shape, bind.
    destruct Hi as [-> | [-> | ->]];
      cbn [String.eqb Ascii.eqb Bool.eqb]; rewrite E; reflexivity.
  - intros -> Hsz.
    unfold init, build_lattice, np_ones, assign_right_half, check_shape, bind.
    cbn [String.eqb Ascii.eqb Bool.eqb]. unfold ret at 1 2.
    destruct ((fst sz <? 0) || (snd sz <? 0)); [reflexivity |].
    unfold raise, ret.
    destruct (Z.eqb_spec (fst sz) 50) as [E1 | E1];
      destruct (Z.eqb_spec (snd sz) 50) as [E2 | E2]; try reflexivity.
    exfalso. apply Hsz. destruct sz; simpl in *; congruence.
Qed.

(** The split configuration on a 10 x 10 lattice. *)
Lemma init_edge_cases_witness :
  init (10, 10) 1%R "k" "glauber" zero_rng = Raise ValueError.
Proof.
  apply (proj2 (proj2 (init_edge_cases (10, 10) 1%R "k" "glauber" zero_rng)));
    [reflexivity | discriminate].
Defined.

Lemma forallb_range (n : Z) (f : Z -> bool) :
  forallb f (range n) = true -> forall x, 0 <= x < n -> f x = true.
Proof.
  intros H x Hx. rewrite forallb_forall in H. apply H. apply in_range. exact Hx.
Qed.

(** X13.  On the 50 x 50 shape the split configuration "k" is built
    without any draw: columns 0 to 24 hold spin +1 and columns 25 to 49
    spin -1, so the magnetisation is 0, and the two domain walls leave
    the stored energy at -4800. *)
Theorem init_k_split (t : R) (d : string) (g : rng) :
  exists self,
    init (50, 50) t "k" d g = Ok (Some self, g) /\
    shape_ok self /\ spins_ok self /\
    (forall i j, 0 <= i < 50 -> 0 <= j < 50 ->
       grid_get (lattice self) (i, j) = if j <? 25 then 1 else -1) /\
    get_abs_M self = 0 /\
    total_E self = (-4800)%R.
Proof.
  eexists. split; [reflexivity |].
  set (rows := map (fun row => firstn 25 row ++ repeat (-1) 25)
                   (repeat (repeat 1 (Z.to_nat 50)) (Z.to_nat 50))).
  split.
  { unfold shape_ok, with_fresh_energy. cbn [size lattice set_total_E fst snd].
    split; [lia |]. split; [lia |]. split; [reflexivity |].
    apply Forall_forall. intros row Hrow.
    assert (Hb : forallb (fun r => Nat.eqb (length r) (Z.to_nat 50)) rows = true)
      by (vm_compute; reflexivity).
    rewrite forallb_forall in Hb. apply Nat.eqb_eq. apply Hb. exact Hrow. }
  split.
  { unfold spins_ok, with_fresh_energy. cbn [lattice set_total_E].
    apply Forall_forall. intros row Hrow. apply Forall_forall. intros s Hs.
    assert (Hb : forallb (forallb (fun x => (x =? 1) || (x =? -1))) rows = true)
      by (vm_compute; reflexivity).
    rewrite forallb_forall in Hb. specialize (Hb row Hrow).
    rewrite forallb_forall in Hb. specialize (Hb s Hs).
    apply orb_true_iff in Hb. destruct Hb as [H | H]; apply Z.eqb_eq in H; auto. }
  split.
  { intros i j Hi Hj. unfold with_fresh_energy. cbn [lattice set_total_E].
    assert (Hb : forallb (fun a =>
                   forallb (fun b => grid_get rows (a, b)
                                     =? (if b <? 25 then 1 else -1))
                           (range 50)) (range 50) = true)
      by (vm_compute; reflexivity).
    pose proof (forallb_range 50 _ Hb i Hi) as Hrow. cbv beta in Hrow.
    pose proof (forallb_range 50 _ Hrow j Hj) as Hcell. cbv beta in Hcell.
    apply Z.eqb_eq. exact Hcell. }
  split.
  { unfold get_abs_M, with_fresh_energy. cbn [lattice set_total_E].
    replace (np_sum rows) with 0 by (vm_compute; reflexivity). reflexivity. }
  unfold with_fresh_energy. cbn [total_E set_total_E]. unfold get_total_E.
  replace (sum_unit_E _) with (-9600) by (vm_compute; reflexivity).
  lra.
Qed.

(** ** Observables *)

Lemma fold_left_Rplus_nonneg (xs : list R) (a : R) :
  (0 <= a)%R -> Forall (fun x => (0 <= x)%R) xs ->
  (0 <= fold_left Rplus xs a)%R.
Proof.
  intros Ha Hxs. revert a Ha.
  induction Hxs as [| x t Hx Ht IH]; intros a Ha; simpl.
  - exact Ha.
  - apply IH. lra.
Qed.

Lemma np_var_nonneg (xs : list R) : xs <> [] -> (0 <= np_var xs)%R.
Proof.
  intros Hne. unfold np_var, np_mean, Rsum. rewrite length_map.
  assert (Hlen : (0 < INR (length xs))%R).
  { apply lt_0_INR. destruct xs; [contradiction | simpl; lia]. }
  apply Rmult_le_pos.
  - apply fold_left_Rplus_nonneg; [lra |].
    apply Forall_forall. intros y Hy. apply in_map_iff in Hy.
    destruct Hy as (x & <- & _). cbv beta. apply Rle_0_sqr.
  - left. apply Rinv_0_lt_compat. exact Hlen.
Qed.

(** X14.  On a non-empty sample list, at positive temperature and on a
    lattice with at least one site, the variance, the heat capacity and
    the susceptibility are never negative. *)
Theorem heat_capacity_and_chi_nonneg (self : IsingModel) (xs : list R) :
  xs <> [] -> (0 < temp self)%R -> 0 < fst (size self) * snd (size self) ->
  (0 <= np_var xs)%R /\
  (0 <= get_heat_capacity self xs)%R /\
  (0 <= get_chi self xs)%R.
Proof.
  intros Hne Ht Hsites.
  pose proof (np_var_nonneg xs Hne) as Hv.
  apply IZR_lt in Hsites.
  split; [exact Hv |].
  split.
  - unfold get_heat_capacity. apply Rmult_le_pos; [exact Hv |].
    left. apply Rinv_0_lt_compat.
    apply Rmult_lt_0_compat; [exact Hsites |].
    apply Rmult_lt_0_compat; exact Ht.
  - unfold get_chi. apply Rmult_le_pos; [exact Hv |].
    left. apply Rinv_0_lt_compat.
    apply Rmult_lt_0_compat; [exact Hsites | exact Ht].
Qed.

(** Two energy samples of the 2 x 2 lattice at temperature 1. *)
Lemma heat_capacity_and_chi_nonneg_witness :
  (0 <= np_var [(-8)%R; 0%R])%R /\
  (0 <= get_heat_capacity up_2x2 [(-8)%R; 0%R])%R /\
  (0 <= get_chi up_2x2 [(-8)%R; 0%R])%R.
Proof.
  apply (heat_capacity_and_chi_nonneg up_2x2 [(-8)%R; 0%R]).
  - discriminate.
  - simpl. lra.
  - reflexivity.
Defined.




(** ** Bootstrap *)

Lemma for_each_ext {A S : Type} (l : list A) (body1 body2 : A -> S -> M S) :
  (forall a s g, body1 a s g = body2 a s g) ->
  forall s g, for_each l body1 s g = for_each l body2 s g.
Proof.
  intros H. induction l as [| a t IH]; intros s g; simpl.
  - reflexivity.
  - unfold bind. rewrite H. destruct (body2 a s g) as [[s' g'] | e]; auto.
Qed.

Lemma resample_ignores_last (xs : list R) (a b : R) (g : rng) :
  resample (xs ++ [a]) g = resample (xs ++ [b]) g.
Proof.
  destruct xs as [| x t].
  - reflexivity.
  - rewrite !resample_ok by (rewrite length_app; simpl; lia).
    rewrite !length_app. cbn [length].
    f_equal. f_equal.
    apply map_ext_in. intros r Hr.
    pose proof (resample_indices_range (S (length t) + 1) g ltac:(lia)) as Hrange.
    rewrite Forall_forall in Hrange. specialize (Hrange r Hr).
    rewrite !app_nth1 by (cbn [length]; lia). reflexivity.
Qed.

(** X16.  The bootstrap never looks at the last sample: replacing the
    last element of the sample list by any other value changes neither
    the result of [bootstrap] nor that of [bootstrap_chi], for every
    number of resamples and every generator state (on a one-element list
    both calls raise [ValueError] either way). *)
Theorem bootstrap_ignores_last_sample
        (self : IsingModel) (xs : list R) (a b : R) (samples : Z) (g : rng) :
  bootstrap self (xs ++ [a]) samples g = bootstrap self (xs ++ [b]) samples g /\
  bootstrap_chi self (xs ++ [a]) samples g
  = bootstrap_chi self (xs ++ [b]) samples g.
Proof.
  split.
  - unfold bootstrap, bind.
    rewrite (for_each_ext (range samples) _
               (fun _ error_data =>
                  sampling_data <- resample (xs ++ [b]) ;;
                  ret (error_data ++ [get_heat_capacity self sampling_data])));
      [reflexivity |].
    intros _ s g0. unfold bind. rewrite (resample_ignores_last xs a b). reflexivity.
  - unfold bootstrap_chi, bind.
    rewrite (for_each_ext (range samples) _
               (fun _ error_data =>
                  sampling_data <- resample (xs ++ [b]) ;;
                  ret (error_data ++ [get_chi self sampling_data])));
      [reflexivity |].
    intros _ s g0. unfold bind. rewrite (resample_ignores_last xs a b). reflexivity.
Qed.




(** ** The driver *)










(** ** The animation loop *)

Lemma for_each_invariant {A S : Type} (I : S -> Prop) (l : list A)
      (body : A -> S -> M S) :
  (forall a s g, I s -> exists s' g', body a s g = Ok (s', g') /\ I s') ->
  forall s g, I s -> exists s' g', for_each l body s g = Ok (s', g') /\ I s'.
Proof.
  intros Hbody. induction l as [| a t IH]; intros s g Hs.
  - exists s, g. split; [reflexivity | exact Hs].
  - destruct (Hbody a s g Hs) as (s1 & g1 & Hrun & Hs1).
    destruct (IH s1 g1 Hs1) as (s' & g' & Hrest & Hs').
    exists s', g'. split; [| exact Hs'].
    simpl. unfold bind. rewrite Hrun. exact Hrest.
Qed.

Lemma glauber_keeps (self : IsingModel) (g : rng) :
  shape_ok self -> 0 < fst (size self) -> 0 < snd (size self) ->
  exists self' g', glauber self g = Ok (self', g') /\ kept self self'.
Proof.
  intros Hshape Hr Hc.
  destruct (glauber_preserves self g Hshape Hr Hc)
    as (self' & g' & Hrun & Hsize & Hshape' & _ & He).
  destruct (glauber_run self g Hr Hc) as (b & g'' & _ & Hrun').
  exists self', g'. split; [exact Hrun |].
  rewrite Hrun in Hrun'. injection Hrun' as E _.
  unfold kept. split; [exact Hsize |].
  split; [rewrite E; destruct b; reflexivity |].
  split; [rewrite E; destruct b; reflexivity |].
  split; [exact Hshape' | exact He].
Qed.

Lemma kawasaki_keeps (self : IsingModel) (g : rng) :
  shape_ok self -> 0 < fst (size self) -> 0 < snd (size self) ->
  exists self' g',
    kawasaki self g = Ok (self', g') /\ kept self self' /\
    (spins_ok self ->
     spins_ok self' /\ np_sum (lattice self') = np_sum (lattice self)).
Proof.
  intros Hshape Hr Hc.
  destruct (kawasaki_preserves self g Hshape Hr Hc)
    as (self' & g' & Hrun & Hsize & Hshape' & Hs & He).
  exists self', g'. split; [exact Hrun |]. split; [| exact Hs].
  assert (Hfields : dynamics self' = dynamics self /\ temp self' = temp self).
  { destruct (Z.eq_dec (grid_get (lattice self) (drawn_site self g))
                       (grid_get (lattice self) (drawn_site self (advance 2 g))))
      as [E | Hne].
    - rewrite (kawasaki_equal self g Hr Hc E) in Hrun.
      injection Hrun as <- _. split; reflexivity.
    - destruct (kawasaki_run self g Hshape Hr Hc Hne) as (b & g'' & _ & Hrun').
      rewrite Hrun in Hrun'. injection Hrun' as E _.
      rewrite E. destruct b; split; reflexivity. }
  unfold kept. split; [exact Hsize |].
  split; [apply Hfields |]. split; [apply Hfields |].
  split; [exact Hshape' | exact He].
Qed.

Lemma kept_refl (self : IsingModel) : shape_ok self -> kept self self.
Proof. intros H. unfold kept. auto. Qed.

Lemma kept_trans (a b c : IsingModel) : kept a b -> kept b c -> kept a c.
Proof.
  intros (S1 & D1 & T1 & Sh1 & E1) (S2 & D2 & T2 & Sh2 & E2).
  unfold kept. split; [congruence |]. split; [congruence |].
  split; [congruence |]. split; [exact Sh2 |].
  intros Hr Hc He. apply E2; rewrite ?S1; auto.
Qed.

(** X20.  How [animate] dispatches at its edges: with the dynamics name
    "kawasaki_2" and at least one iteration it raises [AttributeError]
    (the class has no such method) before touching the lattice; with any
    name other than "glauber", "kawasaki" and "kawasaki_2", or with no
    iteration to make, it returns the model unchanged without a draw. *)
Theorem animate_edge_cases (it_per_sweep : Z) (self : IsingModel) (g : rng) :
  (dynamics self = "kawasaki_2"%string -> 1 <= it_per_sweep ->
   animate it_per_sweep self g = Raise AttributeError) /\
  (dynamics self <> "glauber"%string -> dynamics self <> "kawasaki"%string ->
   dynamics self <> "kawasaki_2"%string ->
   animate it_per_sweep self g = Ok (self, g)) /\
  (it_per_sweep <= 0 -> animate it_per_sweep self g = Ok (self, g)).
Proof.
  split; [| split].
  - intros E Hit. destruct (range_pos it_per_sweep Hit) as [t Ht].
    unfold animate. rewrite Ht. cbn [for_each]. unfold bind.
    rewrite E. reflexivity.
  - intros Hg Hk Hk2. unfold animate. apply for_each_idle.
    intros a _.
    apply String.eqb_neq in Hg. apply String.eqb_neq in Hk.
    apply String.eqb_neq in Hk2. rewrite Hg, Hk, Hk2. reflexivity.
  - intros Hit. unfold animate, range.
    replace (Z.to_nat it_per_sweep) with 0%nat by lia. reflexivity.
Qed.

(** One frame requested under the name "kawasaki_2". *)
Lemma animate_edge_cases_witness :
  animate 2500 (mkIsing (2, 2) 1%R "u" "kawasaki_2" [[1; 1]; [1; 1]] (-8)%R)
          zero_rng
  = Raise AttributeError.
Proof.
  apply (proj1 (animate_edge_cases 2500
                  (mkIsing (2, 2) 1%R "u" "kawasaki_2" [[1; 1]; [1; 1]] (-8)%R)
                  zero_rng));
    [reflexivity | lia].
Defined.

Lemma animate_keeps (it_per_sweep : Z) (self : IsingModel) (g : rng) :
  dynamics self = "glauber"%string \/ dynamics self = "kawasaki"%string ->
  shape_ok self -> 0 < fst (size self) -> 0 < snd (size self) ->
  exists self' g',
    animate it_per_sweep self g = Ok (self', g') /\ kept self self' /\
    (dynamics self = "kawasaki"%string -> spins_ok self ->
     spins_ok self' /\ np_sum (lattice self') = np_sum (lattice self)).
Proof.
  intros Hdyn Hshape Hr Hc. unfold animate.
  apply (for_each_invariant
           (fun s => kept self s /\
                     (dynamics self = "kawasaki"%string -> spins_ok self ->
                      spins_ok s /\ np_sum (lattice s) = np_sum (lattice self)))).
  - intros a s g0 [Hk Hsp].
    pose proof Hk as (Hsz & Hd & _ & Hsh & _).
    assert (Hr' : 0 < fst (size s)) by (rewrite Hsz; exact Hr).
    assert (Hc' : 0 < snd (size s)) by (rewrite Hsz; exact Hc).
    rewrite Hd. destruct Hdyn as [E | E]; rewrite E;
      cbn [String.eqb Ascii.eqb Bool.eqb].
    + destruct (glauber_keeps s g0 Hsh Hr' Hc') as (s' & g' & Hrun & Hk').
      exists s', g'. split; [exact Hrun |].
      split; [exact (kept_trans _ _ _ Hk Hk') |].
      intros Ek. discriminate Ek.
    + destruct (kawasaki_keeps s g0 Hsh Hr' Hc') as (s' & g' & Hrun & Hk' & Hs').
      exists s', g'. split; [exact Hrun |].
      split; [exact (kept_trans _ _ _ Hk Hk') |].
      intros _ Hspins. destruct (Hsp E Hspins) as [Hs1 Hn1].
      destruct (Hs' Hs1) as [Hs2 Hn2]. split; [exact Hs2 | congruence].
  - split; [apply kept_refl; exact Hshape | auto].
Qed.

(** X21.  Any number of animation frames under "glauber" or "kawasaki",
    on a well-shaped lattice with at least one site and at positive
    temperature, run to completion
    and keep the size, the dynamics name, the temperature and the shape
    of the lattice; with at least two rows and two columns [total_E]
    stays equal to [get_total_E]; under "kawasaki" a lattice of spins
    stays one and the sum of its spins never changes. *)
Theorem frames_keep_invariants
        (k : nat) (it_per_sweep : Z) (self : IsingModel) (g : rng) :
  dynamics self = "glauber"%string \/ dynamics self = "kawasaki"%string ->
  shape_ok self -> 0 < fst (size self) -> 0 < snd (size self) ->
  (0 < temp self)%R ->
  exists self' g',
    frames k it_per_sweep self g = Ok (self', g') /\
    size self' = size self /\ dynamics self' = dynamics self /\
    temp self' = temp self /\ shape_ok self' /\
    (2 <= fst (size self) -> 2 <= snd (size self) ->
     total_E self = get_total_E self -> total_E self' = get_total_E self') /\
    (dynamics self = "kawasaki"%string -> spins_ok self ->
     spins_ok self' /\ np_sum (lattice self') = np_sum (lattice self) /\
     get_abs_M self' = get_abs_M self).
Proof.
  revert self g. induction k as [| k IH]; intros self g Hdyn Hshape Hr Hc Htemp.
  - exists self, g. split; [reflexivity |].
    repeat (split; [reflexivity || exact Hshape || auto |]). auto.
  - destruct (animate_keeps it_per_sweep self g Hdyn Hshape Hr Hc)
      as (s1 & g1 & Hrun & (Hsz & Hd & Ht & Hsh & He) & Hsp).
    destruct (IH s1 g1 ltac:(rewrite Hd; exact Hdyn) Hsh
                ltac:(rewrite Hsz; exact Hr) ltac:(rewrite Hsz; exact Hc)
                ltac:(rewrite Ht; exact Htemp))
      as (s' & g' & Hrest & Hsz' & Hd' & Ht' & Hsh' & He' & Hsp').
    exists s', g'. split.
    { simpl. unfold bind. rewrite Hrun. exact Hrest. }
    split; [congruence |]. split; [congruence |]. split; [congruence |].
    split; [exact Hsh' |]. split.
    + intros H2r H2c H0. apply He'; rewrite ?Hsz; auto. apply He; auto.
    + intros Ek Hspins. destruct (Hsp Ek Hspins) as [Hs1 Hn1].
      destruct (Hsp' ltac:(rewrite Hd; exact Ek) Hs1) as (Hs2 & Hn2 & _).
      split; [exact Hs2 |]. split; [congruence |].
      unfold get_abs_M. congruence.
Qed.

(** Two frames of 4 exchange moves on the mixed 2 x 2 lattice; the first
    move draws an up and a down spin and exchanges them. *)
Lemma frames_keep_invariants_witness :
  grid_get (lattice mixed_2x2) (drawn_site mixed_2x2 fourth_one_rng)
  <> grid_get (lattice mixed_2x2)
       (drawn_site mixed_2x2 (advance 2 fourth_one_rng)) /\
  exists self' g',
    frames 2 4 mixed_2x2 fourth_one_rng = Ok (self', g') /\
    size self' = size mixed_2x2 /\ dynamics self' = dynamics mixed_2x2 /\
    temp self' = temp mixed_2x2 /\ shape_ok self' /\
    (2 <= fst (size mixed_2x2) -> 2 <= snd (size mixed_2x2) ->
     total_E mixed_2x2 = get_total_E mixed_2x2 ->
     total_E self' = get_total_E self') /\
    (dynamics mixed_2x2 = "kawasaki"%string -> spins_ok mixed_2x2 ->
     spins_ok self' /\ np_sum (lattice self') = np_sum (lattice mixed_2x2) /\
     get_abs_M self' = get_abs_M mixed_2x2).
Proof.
  split; [intros E; lazy in E; discriminate E |].
  apply (frames_keep_invariants 2 4 mixed_2x2 fourth_one_rng);
    [right; reflexivity | exact mixed_2x2_shape | reflexivity | reflexivity
     | simpl; lra].
Defined.

(** ** Output records of a whole run *)





Section RecordsOfARun.

Variable p : params.
Variable temp_range : list R.

Hypothesis stride : n p <> 0.
Hypothesis rows_ok : 0 <= fst (lattice_size p).
Hypothesis cols_ok : 0 <= snd (lattice_size p).
Hypothesis not_one_sample :
  (Z.to_nat (fst (lattice_size p) * snd (lattice_size p))
   * length (filter (is_due p) (range (sweeps p))) <> 1)%nat.



End RecordsOfARun.


